(** * Stocks-Status: the caching news/quote proxy of [server.js]

    A shallow embedding of the Express server: its in-memory cache, the
    freshness test [isCacheValid], the two Finnhub fetch helpers and the two
    request handlers ([GET /api/news] and [GET /api/news/:symbol]), followed
    by the properties of the specification that concern them.

    The handlers are asynchronous JavaScript functions.  They are modelled
    here as they run when requests are served one after the other: a handler
    is a computation in a state-and-exception monad over a [World] that holds
    the cache together with two pieces of bookkeeping, the number of clock
    readings taken so far and the log of upstream calls made so far.  What the
    outside world answers (clock readings, upstream responses, the configured
    API key) is an [Env], an arbitrary oracle.

    The handler of a symbol keeps a reference [symbolCache] to the record
    [cache.symbols[symbol]] and assigns its [news] and [price] properties;
    nothing ever replaces or deletes a record, so the reference and the map
    agree and the model reads and writes the record through its key.  Keys
    are upper-cased, hence never a property inherited from
    [Object.prototype], and the map is a [gmap]. *)

From Stdlib Require Import ZArith Floats Ascii String Lia.
From stdpp Require Import base option list strings gmap.

Set Warnings "-register-all".

Local Open Scope string_scope.
Local Open Scope Z_scope.

(** ** JavaScript values *)

Module JS.

(** The values [JSON.parse] produces; numbers are IEEE-754 doubles.
    [undefined] is not a JSON value: a property read that may yield it
    returns an [option value]. *)
Inductive value : Type :=
| JNull
| JBool (b : bool)
| JNum (x : float)
| JStr (s : string)
| JArr (items : list value)
| JObj (fields : list (string * value)).

(** [!!v] : the falsy values are [null], [false], [0], [-0], [NaN] and the
    empty string. *)
Definition truthy (v : value) : bool :=
  match v with
  | JNull => false
  | JBool b => b
  | JNum x => negb (PrimFloat.eqb x 0%float || PrimFloat.is_nan x)
  | JStr s => negb (String.eqb s "")
  | JArr _ => true
  | JObj _ => true
  end.

(** [!!s] for a value that is a string or [undefined]. *)
Definition truthy_str (s : option string) : bool :=
  match s with
  | Some s => negb (String.eqb s "")
  | None => false
  end.

(** Own property [k] of an object literal (each key occurs once). *)
Fixpoint field (k : string) (fields : list (string * value)) : option value :=
  match fields with
  | [] => None
  | (k', v) :: rest => if String.eqb k k' then Some v else field k rest
  end.

(** [Array.isArray(v)] *)
Definition isArray (v : value) : bool :=
  match v with
  | JArr _ => true
  | _ => false
  end.

(** [c.toUpperCase()] for an ASCII character: [a]..[z] become [A]..[Z]. *)
Definition upper (c : ascii) : ascii :=
  let n := nat_of_ascii c in
  if ((97 <=? n) && (n <=? 122))%nat then ascii_of_nat (n - 32) else c.

(** [s.toUpperCase()] for a string of ASCII characters, such as a ticker
    symbol.  The Unicode case mapping that [String.prototype.toUpperCase]
    applies to other characters is not modelled: what depends on the
    upper-case form of a parameter is stated of ASCII parameters. *)
Fixpoint toUpperCase (s : string) : string :=
  match s with
  | EmptyString => EmptyString
  | String c rest => String (upper c) (toUpperCase rest)
  end.

(** A thrown [Error]: its [status] property (set by the fetch helpers,
    [undefined] on any other exception) and its [message]. *)
Record Error : Type := mkError {
  err_status : option Z;
  err_message : string
}.

End JS.
Export JS.

(** ** The upstream (Finnhub) as seen through node-fetch *)

(** A calendar date as the two date helpers build it, named by the way it
    is computed: [CurrentDate now] is [new Date().toISOString().split('T')[0]]
    when [new Date()] reads the clock at [now]; [DateDaysAgo now days] is the
    same after [date.setDate(date.getDate() - days)].  What day this is
    depends on the time zone of the process for the second one: see
    [isoDay] and [isoDate] below. *)
Inductive CalendarDate : Type :=
| CurrentDate (now : Z)
| DateDaysAgo (now : Z) (days : Z).

(** *** ECMAScript time values

    A time value is a number of milliseconds since the epoch, UTC.  The
    clock readings of the model are integers in the range of valid time
    values, for which [toISOString] does not throw. *)

Definition msPerDay : Z := 86400000.

(** [Day(t)], the number of the day [t] lies in ([floor(t / msPerDay)]). *)
Definition Day (t : Z) : Z := t / msPerDay.

(** The time zone of the process: the offset of local time from UTC, in
    milliseconds, at a UTC time value ([LocalTZA(t, true)]) and at a local
    time value ([LocalTZA(t, false)]). *)
Record TimeZone : Type := mkTimeZone {
  LocalTZA_of_utc : Z -> Z;
  LocalTZA_of_local : Z -> Z
}.

(** [LocalTime(t)] and [UTC(t)] *)
Definition LocalTime (tz : TimeZone) (t : Z) : Z := t + LocalTZA_of_utc tz t.

Definition UTC (tz : TimeZone) (t : Z) : Z := t - LocalTZA_of_local tz t.

(** The time value of [date] after [date.setDate(date.getDate() - days)]:
    [setDate(dt)] stores [UTC(MakeDate(MakeDay(year, month, dt), time))] for
    the year, month and time within the day of the local time, and
    [MakeDay(year, month, getDate() - days)] is the day of the local time
    minus [days]. *)
Definition setDate_back (tz : TimeZone) (t days : Z) : Z :=
  UTC tz (LocalTime tz t - days * msPerDay).

(** The time value whose UTC date a [CalendarDate] is. *)
Definition time_value (tz : TimeZone) (d : CalendarDate) : Z :=
  match d with
  | CurrentDate now => now
  | DateDaysAgo now days => setDate_back tz now days
  end.

(** The day of a [CalendarDate], as a number of days since the epoch. *)
Definition isoDay (tz : TimeZone) (d : CalendarDate) : Z := Day (time_value tz d).

(** Year, month and day of the month of a day number in the proleptic
    Gregorian calendar ([YearFromTime], [MonthFromTime] + 1, [DateFromTime]). *)
Definition civil (day : Z) : Z * Z * Z :=
  let z := day + 719468 in
  let era := z / 146097 in
  let doe := z - era * 146097 in
  let yoe := (doe - doe / 1460 + doe / 36524 - doe / 146096) / 365 in
  let doy := doe - (365 * yoe + yoe / 4 - yoe / 100) in
  let mp := (5 * doy + 2) / 153 in
  let d := doy - (153 * mp + 2) / 5 + 1 in
  let m := if mp <? 10 then mp + 3 else mp - 9 in
  let y := yoe + era * 400 + (if m <=? 2 then 1 else 0) in
  (y, m, d).

(** The decimal digit [n mod 10]. *)
Definition digit (n : Z) : ascii := ascii_of_nat (48 + Z.to_nat (n mod 10)).

(** The last [width] decimal digits of [n], zero-padded. *)
Fixpoint digits (width : nat) (n : Z) : string :=
  match width with
  | O => EmptyString
  | S k => digits k (n / 10) ++ String (digit n) EmptyString
  end.

(** The date part of [toISOString()]: [YYYY-MM-DD], the year with a sign and
    six digits outside 0..9999. *)
Definition isoDate (tz : TimeZone) (d : CalendarDate) : string :=
  let '(y, m, dd) := civil (isoDay tz d) in
  let year :=
    if (0 <=? y) && (y <=? 9999) then digits 4 y
    else (if y <? 0 then "-" else "+") ++ digits 6 (Z.abs y) in
  year ++ "-" ++ digits 2 m ++ "-" ++ digits 2 dd.

(** The three URLs the server fetches; [token] is [FINNHUB_API_KEY] as it is
    interpolated into the URL. *)
Inductive UpstreamCall : Type :=
| GeneralNews (token : option string)
| CompanyNews (symbol : string) (from to : CalendarDate) (token : option string)
| Quote (symbol : string) (token : option string).

(** A node-fetch [Response]: [json] is what [response.json()] resolves to, or
    the message of the error it rejects with. *)
Record Response : Type := mkResponse {
  status : Z;
  statusText : string;
  json : string + value
}.

(** [response.ok], which node-fetch defines as [status >= 200 && status < 300]. *)
Definition ok (response : Response) : bool :=
  (200 <=? status response) && (status response <? 300).

(** The promise returned by [fetch(url)]: rejected (network failure) or
    resolved with a response. *)
Inductive FetchResult : Type :=
| Rejected (message : string)
| Resolved (response : Response).

(** ** Cache and world *)

Record CacheEntry : Type := mkEntry {
  data : value;
  timestamp : option Z
}.

Record SymbolCache : Type := mkSymbolCache {
  news : CacheEntry;
  price : CacheEntry
}.

Record Cache : Type := mkCache {
  general : CacheEntry;
  symbols : gmap string SymbolCache
}.

(** [{ data: null, timestamp: null }] *)
Definition empty_entry : CacheEntry := mkEntry JNull None.

(** The [cache] constant as the module initialises it. *)
Definition initial_cache : Cache := mkCache empty_entry ∅.

Definition CACHE_TTL : Z := 60 * 1000.

(** The mutable part: the cache, and two counters that only record history,
    the number of clock readings taken and the upstream calls made. *)
Record World : Type := mkWorld {
  cache : Cache;
  reads : nat;
  calls : list UpstreamCall
}.

Definition initial_world : World := mkWorld initial_cache 0 [].

(** What the handlers do not control: the configured key
    ([process.env.FINNHUB_API_KEY], [undefined] when unset), the value of the
    [n]-th clock reading, and the outcome of the [n]-th upstream call. *)
Record Env : Type := mkEnv {
  FINNHUB_API_KEY : option string;
  clock : nat -> Z;
  upstream : nat -> UpstreamCall -> FetchResult
}.

(** What the handler sends: [res.status(code).json(body)], [code] being 200
    when [res.status] is not called. *)
Record Reply : Type := mkReply {
  code : Z;
  body : value
}.

(** ** The monad of handler bodies: state, and exceptions carrying an [Error] *)

Definition M (A : Type) : Type := World -> (Error + A) * World.

Definition ret {A : Type} (a : A) : M A := fun w => (inr a, w).

Definition bind {A B : Type} (m : M A) (f : A -> M B) : M B :=
  fun w =>
    match m w with
    | (inr a, w') => f a w'
    | (inl e, w') => (inl e, w')
    end.

Notation "'let*' x ':=' m 'in' k" := (bind m (fun x => k))
  (at level 10, x pattern, m at level 100, k at level 200).

(** A step that returns or throws without touching the world. *)
Definition lift {A : Type} (x : Error + A) : M A := fun w => (x, w).

Definition get_cache : M Cache := fun w => (inr (cache w), w).

Definition set_cache (c : Cache) : M unit :=
  fun w => (inr tt, mkWorld c (reads w) (calls w)).

(** [try { body } catch (error) { handler }] around a whole request. *)
Definition try_catch (body : M Reply) (handler : Error -> Reply)
  : World -> Reply * World :=
  fun w =>
    match body w with
    | (inr r, w') => (r, w')
    | (inl error, w') => (handler error, w')
    end.

(** [cache.symbols[symbol] = { news: { data: null, timestamp: null },
    price: { data: null, timestamp: null } }] unless the symbol has a record. *)
Definition with_symbol (symbol : string) (c : Cache) : Cache :=
  match symbols c !! symbol with
  | Some _ => c
  | None =>
      mkCache (general c)
        (<[symbol := mkSymbolCache empty_entry empty_entry]> (symbols c))
  end.

(** [cache.symbols[symbol].news = entry] *)
Definition with_news (symbol : string) (entry : CacheEntry) (c : Cache) : Cache :=
  mkCache (general c)
    (alter (fun sc => mkSymbolCache entry (price sc)) symbol (symbols c)).

(** [cache.symbols[symbol].price = entry] *)
Definition with_price (symbol : string) (entry : CacheEntry) (c : Cache) : Cache :=
  mkCache (general c)
    (alter (fun sc => mkSymbolCache (news sc) entry) symbol (symbols c)).

(** The upstream calls a run from [w] to [w'] has added to the log. *)
Definition new_calls (w w' : World) : list UpstreamCall :=
  drop (length (calls w)) (calls w').

(** ** The server *)

Section Server.

Context (E : Env).

(** [Date.now()] (and the clock reading inside [new Date()]). *)
Definition Date_now : M Z :=
  fun w => (inr (clock E (reads w)), mkWorld (cache w) (S (reads w)) (calls w)).

(** [await fetch(url)] *)
Definition fetch (url : UpstreamCall) : M Response :=
  fun w =>
    let w' := mkWorld (cache w) (reads w) (calls w ++ [url]) in
    match upstream E (length (calls w)) url with
    | Rejected message => (inl (mkError None message), w')
    | Resolved response => (inr response, w')
    end.

(** [await response.json()] *)
Definition response_json (response : Response) : Error + value :=
  match json response with
  | inl message => inl (mkError None message)
  | inr v => inr v
  end.

Definition isCacheValid (cacheEntry : option CacheEntry) : M bool :=
  match cacheEntry with
  | None => ret false
  | Some entry =>
      match timestamp entry with
      | None => ret false
      | Some t =>
          if t =? 0 then ret false
          else
            let* now := Date_now in
            ret (now - t <? CACHE_TTL)
      end
  end.

Definition getCurrentDate : M CalendarDate :=
  let* now := Date_now in
  ret (CurrentDate now).

Definition getDateDaysAgo (days : Z) : M CalendarDate :=
  let* now := Date_now in
  ret (DateDaysAgo now days).

(** The part of both fetch helpers after [fetch]: the status check and the
    body. *)
Definition check_response (response : Response) : Error + value :=
  if negb (ok response) then
    if status response =? 429 then
      inl (mkError (Some 429) "Rate limit exceeded. Please try again later.")
    else
      inl (mkError (Some (status response))
             ("Finnhub API error: " ++ statusText response))
  else response_json response.

(** The URL of [fetchNewsFromFinnhub]: [symbol ? company-news : news]. *)
Definition news_url (symbol : option string) : M UpstreamCall :=
  match symbol with
  | Some s =>
      if truthy_str symbol then
        let* from := getDateDaysAgo 7 in
        let* to := getCurrentDate in
        ret (CompanyNews s from to (FINNHUB_API_KEY E))
      else ret (GeneralNews (FINNHUB_API_KEY E))
  | None => ret (GeneralNews (FINNHUB_API_KEY E))
  end.

Definition fetchNewsFromFinnhub (symbol : option string) : M value :=
  let* url := news_url symbol in
  let* response := fetch url in
  lift (check_response response).

Definition fetchPriceFromFinnhub (symbol : string) : M value :=
  let* response := fetch (Quote symbol (FINNHUB_API_KEY E)) in
  lift (check_response response).

Definition error_body (error message : string) : value :=
  JObj [("error", JStr error); ("message", JStr message)].

(** The reply of both handlers when [!FINNHUB_API_KEY]. *)
Definition configuration_error : Reply :=
  mkReply 500 (error_body "Server configuration error"
                 "FINNHUB_API_KEY environment variable is not set").

Definition rate_limit_error : Reply :=
  mkReply 429 (error_body "Rate limit exceeded"
                 "Too many requests. Please try again later.").

(** [error.status || 500] *)
Definition status_or_500 (error : Error) : Z :=
  match err_status error with
  | Some s => if s =? 0 then 500 else s
  | None => 500
  end.

(** [error.message || 'An unexpected error occurred'] *)
Definition message_or_default (error : Error) : string :=
  if String.eqb (err_message error) "" then "An unexpected error occurred"
  else err_message error.

(** The [catch] block of both handlers; they differ in [category] only. *)
Definition on_error (category : string) (error : Error) : Reply :=
  match err_status error with
  | Some 429 => rate_limit_error
  | _ => mkReply (status_or_500 error)
           (error_body category (message_or_default error))
  end.

(** [app.get('/api/news', ...)] *)
Definition get_api_news : World -> Reply * World :=
  try_catch
    (let* c := get_cache in
     let* valid := isCacheValid (Some (general c)) in
     if valid then ret (mkReply 200 (data (general c)))
     else if negb (truthy_str (FINNHUB_API_KEY E)) then ret configuration_error
     else
       let* news := fetchNewsFromFinnhub None in
       let* now := Date_now in
       let* c := get_cache in
       let* _ := set_cache (mkCache (mkEntry news (Some now)) (symbols c)) in
       ret (mkReply 200 news))
    (on_error "Failed to fetch news").

(** [cache.symbols[symbol]], [undefined] for a symbol not seen yet. *)
Definition symbolCache_of (symbol : string) : M (option SymbolCache) :=
  let* c := get_cache in
  ret (symbols c !! symbol).

(** [symbolCache.news = entry], through the reference
    [symbolCache = cache.symbols[symbol]]. *)
Definition set_news (symbol : string) (entry : CacheEntry) : M unit :=
  let* c := get_cache in
  set_cache (with_news symbol entry c).

(** [symbolCache.price = entry] *)
Definition set_price (symbol : string) (entry : CacheEntry) : M unit :=
  let* c := get_cache in
  set_cache (with_price symbol entry c).

(** [if (!cache.symbols[symbol]) cache.symbols[symbol] = {...}] *)
Definition init_symbol (symbol : string) : M unit :=
  let* c := get_cache in
  set_cache (with_symbol symbol c).

(** [priceData.c || null]; reading [.c] of [null] throws a [TypeError],
    of any other non-object yields [undefined]. *)
Definition current_price (priceData : value) : Error + value :=
  match priceData with
  | JNull =>
      inl (mkError None "Cannot read properties of null (reading 'c')")
  | JObj fields =>
      match field "c" fields with
      | Some v => inr (if truthy v then v else JNull)
      | None => inr JNull
      end
  | _ => inr JNull
  end.

(** The block "Fetch news (from cache or API)": the news and the value of
    [source] after it. *)
Definition resolve_news (symbol source : string) : M (value * string) :=
  let* symbolCache := symbolCache_of symbol in
  let* valid := isCacheValid (news <$> symbolCache) in
  if valid then
    ret (from_option (fun sc => data (news sc)) JNull symbolCache, source)
  else
    let* n := fetchNewsFromFinnhub (Some symbol) in
    let* now := Date_now in
    let* _ := set_news symbol (mkEntry n (Some now)) in
    ret (n, "api").

(** The block "Fetch price (from cache or API)". *)
Definition resolve_price (symbol source : string) : M (value * string) :=
  let* symbolCache := symbolCache_of symbol in
  let* valid := isCacheValid (price <$> symbolCache) in
  if valid then
    ret (from_option (fun sc => data (price sc)) JNull symbolCache, source)
  else
    let* priceData := fetchPriceFromFinnhub symbol in
    let* p := lift (current_price priceData) in
    let* now := Date_now in
    let* _ := set_price symbol (mkEntry p (Some now)) in
    ret (p, "api").

Definition symbol_response (symbol : string) (p n : value) (source : string) : value :=
  JObj [("symbol", JStr symbol);
        ("price", p);
        ("news", if isArray n then n else JArr []);
        ("source", JStr source)].

(** [app.get('/api/news/:symbol', ...)]; [param] is [req.params.symbol]. *)
Definition get_api_news_symbol (param : string) : World -> Reply * World :=
  try_catch
    (let symbol := toUpperCase param in
     let* _ := init_symbol symbol in
     if negb (truthy_str (FINNHUB_API_KEY E)) then ret configuration_error
     else
       let* (n, source) := resolve_news symbol "cache" in
       let* (p, source) := resolve_price symbol source in
       ret (mkReply 200 (symbol_response symbol p n source)))
    (on_error "Failed to fetch news/price").

End Server.

(** ** Notions used by the statements *)

(** The world after one more clock reading. *)
Definition tick (w : World) : World := mkWorld (cache w) (S (reads w)) (calls w).

(** What a fetch helper returns or throws for an upstream answer. *)
Definition outcome (res : FetchResult) : Error + value :=
  match res with
  | Rejected message => inl (mkError None message)
  | Resolved response => check_response response
  end.

(** What the price block obtains from the quote endpoint's answer: the
    outcome of [fetchPriceFromFinnhub], then [priceData.c || null]. *)
Definition price_outcome (res : FetchResult) : Error + value :=
  match outcome res with
  | inl e => inl e
  | inr priceData => current_price priceData
  end.

(** The call goes to the quote endpoint. *)
Definition is_quote (url : UpstreamCall) : bool :=
  match url with
  | Quote _ _ => true
  | _ => false
  end.

(** The two routes: [GET /api/news] and [GET /api/news/:symbol]. *)
Inductive Request : Type :=
| GetNews
| GetSymbolNews (param : string).

(** The handler Express dispatches the request to. *)
Definition serve (E : Env) (q : Request) : World -> Reply * World :=
  match q with
  | GetNews => get_api_news E
  | GetSymbolNews param => get_api_news_symbol E param
  end.

(** The replies to the requests [qs], served in order from [w], and the world
    they leave. *)
Fixpoint serve_all (E : Env) (qs : list Request) (w : World) : list Reply * World :=
  match qs with
  | [] => ([], w)
  | q :: rest =>
      let (r, w1) := serve E q w in
      let (rs, w2) := serve_all E rest w1 in
      (r :: rs, w2)
  end.

(** No entry of the cache carries a timestamp. *)
Definition never_fetched (c : Cache) : Prop :=
  timestamp (general c) = None /\
  forall s sc, symbols c !! s = Some sc ->
               timestamp (news sc) = None /\ timestamp (price sc) = None.

(** The field [k] of a reply whose body is an object. *)
Definition reply_field (r : Reply) (k : string) : option value :=
  match body r with
  | JObj fields => field k fields
  | _ => None
  end.

(** During the run from [w] to [w'] the upstream was called and answered with
    the response [r]. *)
Definition answered (E : Env) (w w' : World) (r : Response) : Prop :=
  exists (k : nat) (url : UpstreamCall),
    (length (calls w) <= k)%nat /\ calls w' !! k = Some url /\
    upstream E k url = Resolved r.

(** The invariant of an entry as the specification words it. *)
Definition absent_together (e : CacheEntry) : Prop :=
  data e = JNull <-> timestamp e = None.

(** The half of it that survives a [null] payload: an entry without timestamp
    has no data. *)
Definition unstamped_is_empty (e : CacheEntry) : Prop :=
  timestamp e = None -> data e = JNull.

(** [P] holds of the general entry and of both entries of every symbol. *)
Definition every_entry (P : CacheEntry -> Prop) (c : Cache) : Prop :=
  P (general c) /\
  forall s sc, symbols c !! s = Some sc -> P (news sc) /\ P (price sc).

(** ** Concrete environments and worlds used by the examples below *)

Module Scenario.

Definition articles : value :=
  JArr [JObj [("headline", JStr "Markets open higher");
              ("source", JStr "Wire");
              ("datetime", JNum 1700000000%float);
              ("url", JStr "https://example.com/a")]].

Definition http_ok (payload : value) : FetchResult :=
  Resolved (mkResponse 200 "OK" (inr payload)).

Definition http_error (s : Z) (text : string) : FetchResult :=
  Resolved (mkResponse s text (inl "invalid json response body")).

(** A clock that advances by one millisecond per reading. *)
Definition clock_from (t0 : Z) : nat -> Z := fun n => t0 + Z.of_nat n.

(** Every endpoint answers; the quote carries a current price of [c]. *)
Definition answering (c : value) : nat -> UpstreamCall -> FetchResult :=
  fun _ url =>
    match url with
    | GeneralNews _ => http_ok articles
    | CompanyNews _ _ _ _ => http_ok articles
    | Quote _ _ => http_ok (JObj [("c", c); ("h", JNum 190.5%float)])
    end.

(** News endpoints answer, the quote endpoint answers with status [s]. *)
Definition quote_failing (s : Z) : nat -> UpstreamCall -> FetchResult :=
  fun _ url =>
    match url with
    | Quote _ _ => http_error s "Service Unavailable"
    | _ => http_ok articles
    end.

(** Every endpoint answers with status [s]. *)
Definition all_failing (s : Z) (text : string) : nat -> UpstreamCall -> FetchResult :=
  fun _ _ => http_error s text.

Definition env_priced : Env :=
  mkEnv (Some "secret") (clock_from 1700000000000) (answering (JNum 189.25%float)).

Definition env_zero_price : Env :=
  mkEnv (Some "secret") (clock_from 1700000000000) (answering (JNum 0%float)).

Definition env_quote_down : Env :=
  mkEnv (Some "secret") (clock_from 1700000000000) (quote_failing 503).

Definition env_rate_limited : Env :=
  mkEnv (Some "secret") (clock_from 1700000000000) (all_failing 429 "Too Many Requests").

Definition env_not_found : Env :=
  mkEnv (Some "secret") (clock_from 1700000000000) (all_failing 404 "Not Found").

Definition env_no_key : Env :=
  mkEnv None (clock_from 1700000000000) (answering (JNum 189.25%float)).

(** A clock standing thirty seconds after the epoch. *)
Definition env_epoch : Env :=
  mkEnv (Some "secret") (fun _ => 30000) (answering (JNum 189.25%float)).

(** General news cached one second before the first reading of
    [clock_from 1700000000000]. *)
Definition world_general_cached : World :=
  mkWorld (mkCache (mkEntry articles (Some 1699999999000)) ∅) 0 [].

(** An entry stamped with the epoch itself. *)
Definition entry_epoch : CacheEntry := mkEntry articles (Some 0).

(** News and price of AAPL both cached one second before the first reading. *)
Definition world_aapl_cached : World :=
  mkWorld
    (mkCache empty_entry
       {[ "AAPL" := mkSymbolCache (mkEntry articles (Some 1699999999000))
                      (mkEntry (JNum 189.25%float) (Some 1699999999000)) ]})
    0 [].

(** A clock standing at the epoch: every reading is 0. *)
Definition env_at_epoch : Env :=
  mkEnv (Some "secret") (fun _ => 0) (answering (JNum 189.25%float)).

Definition env_at_epoch_quote_down : Env :=
  mkEnv (Some "secret") (fun _ => 0) (quote_failing 503).

End Scenario.

(** ** Proof support *)

(** Unfolds the handlers down to the primitive steps of the monad. *)
Ltac unfold_server :=
  cbv [get_api_news get_api_news_symbol try_catch bind ret get_cache set_cache
       lift Date_now fetch isCacheValid getCurrentDate getDateDaysAgo
       news_url fetchNewsFromFinnhub fetchPriceFromFinnhub
       resolve_news resolve_price init_symbol symbolCache_of set_news set_price]
    in *.

Section Facts.

Context (E : Env).

Lemma ok_range (r : Response) : ok r = true <-> 200 <= status r < 300.
Proof. unfold ok. rewrite andb_true_iff, Z.leb_le, Z.ltb_lt. tauto. Qed.

(** *** The [catch] block *)

Lemma on_error_code (category : string) (error : Error) :
  code (on_error category error) =
  match err_status error with
  | Some s => if s =? 0 then 500 else s
  | None => 500
  end.
Proof.
  unfold on_error, status_or_500, rate_limit_error.
  destruct (err_status error) as [s|]; [|reflexivity].
  destruct s as [|p|p]; try reflexivity.
  repeat (destruct p as [p|p|]; try reflexivity).
Qed.

(** *** The fetch helpers *)

Lemma check_response_inr (r : Response) (v : value) :
  check_response r = inr v <-> ok r = true /\ json r = inr v.
Proof.
  unfold check_response, response_json.
  destruct (ok r); simpl.
  - destruct (json r);
      (split; [intros H; split; congruence|intros [_ H]; congruence]).
  - destruct (status r =? 429);
      (split; [intros H; split; congruence|intros [H _]; congruence]).
Qed.

Lemma check_response_429 (r : Response) :
  status r = 429 ->
  check_response r
  = inl (mkError (Some 429) "Rate limit exceeded. Please try again later.").
Proof. intros H. unfold check_response, ok. rewrite H. reflexivity. Qed.

Lemma check_response_not_ok (r : Response) :
  ok r = false -> status r <> 429 ->
  check_response r
  = inl (mkError (Some (status r)) ("Finnhub API error: " ++ statusText r)).
Proof.
  intros Hok Hne. unfold check_response. rewrite Hok. simpl.
  destruct (status r =? 429) eqn:Hs; [|reflexivity].
  apply Z.eqb_eq in Hs. contradiction.
Qed.

(** No error thrown by a fetch helper is answered with status 200. *)
Lemma outcome_error_code (res : FetchResult) (e : Error) (category : string) :
  outcome res = inl e -> code (on_error category e) <> 200.
Proof.
  destruct res as [message|r]; simpl.
  - intros [= <-]. discriminate.
  - unfold check_response, response_json. destruct (ok r) eqn:Hok; simpl.
    + destruct (json r); intros [= <-]. discriminate.
    + destruct (status r =? 429); intros [= <-]; [discriminate|].
      rewrite on_error_code. simpl. destruct (status r =? 0); [lia|].
      intros Hs. unfold ok in Hok. rewrite Hs in Hok. discriminate.
Qed.

Lemma current_price_error_code (priceData : value) (e : Error) (category : string) :
  current_price priceData = inl e -> code (on_error category e) <> 200.
Proof.
  destruct priceData as [| | | | |fields]; simpl; try discriminate.
  - intros [= <-]. discriminate.
  - destruct (field "c" fields); discriminate.
Qed.

(** The fetch helpers log one call and return or throw its [outcome]. *)
Lemma fetchPriceFromFinnhub_run (symbol : string) (w : World) :
  fetchPriceFromFinnhub E symbol w
  = (outcome (upstream E (length (calls w)) (Quote symbol (FINNHUB_API_KEY E))),
     mkWorld (cache w) (reads w)
       (calls w ++ [Quote symbol (FINNHUB_API_KEY E)])).
Proof.
  unfold fetchPriceFromFinnhub, bind, fetch, lift, outcome.
  destruct (upstream E (length (calls w)) _); reflexivity.
Qed.

Lemma fetchNewsFromFinnhub_general_run (w : World) :
  fetchNewsFromFinnhub E None w
  = (outcome (upstream E (length (calls w)) (GeneralNews (FINNHUB_API_KEY E))),
     mkWorld (cache w) (reads w) (calls w ++ [GeneralNews (FINNHUB_API_KEY E)])).
Proof.
  unfold fetchNewsFromFinnhub, news_url, bind, ret, fetch, lift, outcome.
  destruct (upstream E (length (calls w)) _); reflexivity.
Qed.

(** *** The freshness test *)

(** [isCacheValid] only ever reads the clock, and does so exactly when the
    entry carries a truthy timestamp. *)
Lemma isCacheValid_run (cacheEntry : option CacheEntry) (w : World) :
  (isCacheValid E cacheEntry w = (inr false, w) /\
   forall entry t, cacheEntry = Some entry -> timestamp entry = Some t -> t = 0) \/
  (exists entry t,
      cacheEntry = Some entry /\ timestamp entry = Some t /\ t <> 0 /\
      isCacheValid E cacheEntry w
      = (inr (clock E (reads w) - t <? CACHE_TTL), tick w)).
Proof.
  destruct cacheEntry as [entry|]; [|left; split; [reflexivity|discriminate]].
  destruct (timestamp entry) as [t|] eqn:Ht.
  - destruct (Z.eq_dec t 0) as [->|Hne].
    + left. split; [unfold isCacheValid; rewrite Ht; reflexivity|].
      intros ? ? [= <-]. congruence.
    + right. exists entry, t. repeat split; try assumption.
      unfold isCacheValid. rewrite Ht.
      destruct (t =? 0) eqn:Hz; [lia|reflexivity].
  - left. split; [unfold isCacheValid; rewrite Ht; reflexivity|].
    intros ? ? [= <-]. congruence.
Qed.

(** The same, as a summary: the answer, and what it tells about the entry. *)
Lemma isCacheValid_summary (cacheEntry : option CacheEntry) (w : World) :
  exists valid w0,
    isCacheValid E cacheEntry w = (inr valid, w0) /\
    cache w0 = cache w /\ calls w0 = calls w /\
    (reads w <= reads w0 <= S (reads w))%nat /\
    (valid = true ->
     w0 = tick w /\
     exists entry t, cacheEntry = Some entry /\ timestamp entry = Some t /\
                     t <> 0 /\ clock E (reads w) - t < CACHE_TTL) /\
    (valid = false ->
     forall entry t, cacheEntry = Some entry -> timestamp entry = Some t ->
                     t <> 0 -> CACHE_TTL <= clock E (reads w) - t).
Proof.
  destruct (isCacheValid_run cacheEntry w)
    as [[Hrun Hzero]|(entry & t & He & Ht & Hne & Hrun)].
  - exists false, w. split; [exact Hrun|]. do 2 (split; [reflexivity|]).
    split; [lia|]. split; [discriminate|].
    intros _ entry t He Ht Hne. exfalso. apply Hne. eauto.
  - exists (clock E (reads w) - t <? CACHE_TTL), (tick w).
    split; [exact Hrun|]. do 2 (split; [reflexivity|]).
    split; [simpl; lia|]. split.
    + intros Hv. split; [reflexivity|]. exists entry, t.
      repeat split; try assumption. by apply Z.ltb_lt.
    + intros Hv entry' t' He' Ht' _. apply Z.ltb_ge in Hv. congruence.
Qed.

(** The freshness test looks at the world only through the clock. *)
Lemma isCacheValid_reads (cacheEntry : option CacheEntry) (w w' : World) :
  reads w' = reads w ->
  fst (isCacheValid E cacheEntry w') = fst (isCacheValid E cacheEntry w).
Proof.
  intros Hr. unfold_server.
  destruct cacheEntry as [entry|]; [|reflexivity].
  destruct (timestamp entry) as [t|]; [|reflexivity].
  destruct (t =? 0); simpl; rewrite ?Hr; reflexivity.
Qed.

Lemma isCacheValid_false (cacheEntry : option CacheEntry) (w w' : World) :
  isCacheValid E cacheEntry w = (inr false, w') ->
  forall entry t, cacheEntry = Some entry -> timestamp entry = Some t ->
                  t <> 0 -> CACHE_TTL <= clock E (reads w) - t.
Proof.
  intros Hrun.
  destruct (isCacheValid_summary cacheEntry w) as (valid & w0 & Hv & _ & _ & _ & _ & Hf).
  rewrite Hv in Hrun. injection Hrun as -> ->. by apply Hf.
Qed.

(** An entry stamped with a non-zero reading less than the TTL ago is valid. *)
Lemma isCacheValid_true (entry : CacheEntry) (t : Z) (w : World) :
  timestamp entry = Some t -> t <> 0 -> clock E (reads w) - t < CACHE_TTL ->
  fst (isCacheValid E (Some entry) w) = inr true.
Proof.
  intros Ht Hne Hage. unfold isCacheValid. rewrite Ht.
  destruct (t =? 0) eqn:Hz; [lia|].
  unfold bind, Date_now, ret. simpl. f_equal. apply Z.ltb_lt. exact Hage.
Qed.

(** *** The general-news handler, branch by branch

    In these summaries every world is spelled out from the cache and the
    log of the starting one; [r0] is the number of clock readings after the
    freshness test, [r1] the one after the URL has been built. *)

Lemma get_api_news_run (w : World) :
  exists valid r0,
    isCacheValid E (Some (general (cache w))) w
    = (inr valid, mkWorld (cache w) r0 (calls w)) /\
    (reads w <= r0 <= S (reads w))%nat /\
    get_api_news E w =
    if valid then
      (mkReply 200 (data (general (cache w))), mkWorld (cache w) r0 (calls w))
    else if negb (truthy_str (FINNHUB_API_KEY E)) then
      (configuration_error, mkWorld (cache w) r0 (calls w))
    else
      let url := GeneralNews (FINNHUB_API_KEY E) in
      match outcome (upstream E (length (calls w)) url) with
      | inl e =>
          (on_error "Failed to fetch news" e,
           mkWorld (cache w) r0 (calls w ++ [url]))
      | inr n =>
          (mkReply 200 n,
           mkWorld (mkCache (mkEntry n (Some (clock E r0))) (symbols (cache w)))
             (S r0) (calls w ++ [url]))
      end.
Proof.
  destruct w as [c r l]. unfold_server. cbn beta iota delta [cache reads calls].
  destruct (timestamp (general c)) as [t|]; simpl;
    [destruct (t =? 0); simpl; [|destruct (clock E r - t <? CACHE_TTL); simpl]|];
    do 2 eexists; (split; [reflexivity|]); (split; [lia|]); try reflexivity.
  all: destruct (negb (truthy_str (FINNHUB_API_KEY E))); try reflexivity.
  all: unfold outcome; cbn beta iota delta [cache reads calls].
  all: match goal with |- context [upstream E ?k ?u] =>
         destruct (upstream E k u) as [message|r'] end; try reflexivity.
  all: match goal with |- context [check_response ?r] =>
         destruct (check_response r) end; reflexivity.
Qed.

(** *** The two blocks of the symbol handler, branch by branch *)

Lemma resolve_news_run (symbol source : string) (sc : SymbolCache) (w : World) :
  symbols (cache w) !! symbol = Some sc ->
  exists valid r0,
    isCacheValid E (Some (news sc)) w
    = (inr valid, mkWorld (cache w) r0 (calls w)) /\
    (reads w <= r0 <= S (reads w))%nat /\
    (valid = true -> r0 = S (reads w)) /\
    if valid then
      resolve_news E symbol source w
      = (inr (data (news sc), source), mkWorld (cache w) r0 (calls w))
    else
      exists url r1,
        news_url E (Some symbol) (mkWorld (cache w) r0 (calls w))
        = (inr url, mkWorld (cache w) r1 (calls w)) /\
        (r0 <= r1)%nat /\ is_quote url = false /\
        resolve_news E symbol source w =
        match outcome (upstream E (length (calls w)) url) with
        | inl e => (inl e, mkWorld (cache w) r1 (calls w ++ [url]))
        | inr n =>
            (inr (n, "api"),
             mkWorld (with_news symbol (mkEntry n (Some (clock E r1))) (cache w))
               (S r1) (calls w ++ [url]))
        end.
Proof.
  intros Hsc. destruct w as [c r l]. unfold_server. cbn beta iota delta [cache reads calls] in *.
  rewrite Hsc. simpl.
  destruct (timestamp (news sc)) as [t|]; simpl;
    [destruct (t =? 0); simpl; [|destruct (clock E r - t <? CACHE_TTL); simpl]|];
    do 2 eexists; (split; [reflexivity|]); (split; [lia|]);
    (split; [try reflexivity; discriminate|]); try reflexivity.
  all: destruct (negb (String.eqb symbol ""));
    do 2 eexists; (split; [reflexivity|]); (split; [simpl; lia|]);
    (split; [reflexivity|]); simpl; unfold outcome.
  all: match goal with |- context [upstream E ?k ?u] =>
         destruct (upstream E k u) as [message|r'] end; try reflexivity.
  all: match goal with |- context [check_response ?r] =>
         destruct (check_response r) end; reflexivity.
Qed.

Lemma resolve_price_run (symbol source : string) (sc : SymbolCache) (w : World) :
  symbols (cache w) !! symbol = Some sc ->
  exists valid r0,
    isCacheValid E (Some (price sc)) w
    = (inr valid, mkWorld (cache w) r0 (calls w)) /\
    (reads w <= r0 <= S (reads w))%nat /\
    if valid then
      resolve_price E symbol source w
      = (inr (data (price sc), source), mkWorld (cache w) r0 (calls w))
    else
      let url := Quote symbol (FINNHUB_API_KEY E) in
      let failed := mkWorld (cache w) r0 (calls w ++ [url]) in
      resolve_price E symbol source w =
      match outcome (upstream E (length (calls w)) url) with
      | inl e => (inl e, failed)
      | inr priceData =>
          match current_price priceData with
          | inl e => (inl e, failed)
          | inr p =>
              (inr (p, "api"),
               mkWorld (with_price symbol (mkEntry p (Some (clock E r0))) (cache w))
                 (S r0) (calls w ++ [url]))
          end
      end.
Proof.
  intros Hsc. destruct w as [c r l]. unfold_server. cbn beta iota delta [cache reads calls] in *.
  rewrite Hsc. simpl.
  destruct (timestamp (price sc)) as [t|]; simpl;
    [destruct (t =? 0); simpl; [|destruct (clock E r - t <? CACHE_TTL); simpl]|];
    do 2 eexists; (split; [reflexivity|]); (split; [lia|]); try reflexivity.
  all: unfold outcome; cbn beta iota delta [cache reads calls].
  all: match goal with |- context [upstream E ?k ?u] =>
         destruct (upstream E k u) as [message|r'] end; try reflexivity.
  all: match goal with |- context [check_response ?r] =>
         destruct (check_response r) as [e|priceData] end; try reflexivity.
  all: match goal with |- context [current_price ?d] =>
         destruct (current_price d) end; reflexivity.
Qed.

(** The symbol handler as the sequence of its blocks. *)
Lemma get_api_news_symbol_run (param : string) (w : World) :
  get_api_news_symbol E param w =
  let symbol := toUpperCase param in
  let category := "Failed to fetch news/price" in
  let w0 := mkWorld (with_symbol symbol (cache w)) (reads w) (calls w) in
  if negb (truthy_str (FINNHUB_API_KEY E)) then (configuration_error, w0)
  else
    match resolve_news E symbol "cache" w0 with
    | (inl e, w1) => (on_error category e, w1)
    | (inr (n, source), w1) =>
        match resolve_price E symbol source w1 with
        | (inl e, w2) => (on_error category e, w2)
        | (inr (p, source'), w2) =>
            (mkReply 200 (symbol_response symbol p n source'), w2)
        end
    end.
Proof.
  unfold get_api_news_symbol, try_catch, init_symbol, bind, get_cache, set_cache.
  cbv zeta. destruct (negb (truthy_str (FINNHUB_API_KEY E))); [reflexivity|].
  destruct (resolve_news E _ _ _) as [[e|[n source]] w1]; [reflexivity|].
  destruct (resolve_price E _ _ _) as [[e|[p source']] w2]; reflexivity.
Qed.

(** *** Lookups in an updated cache *)

Lemma lookup_with_symbol (symbol : string) (c : Cache) :
  symbols (with_symbol symbol c) !! symbol
  = Some (default (mkSymbolCache empty_entry empty_entry) (symbols c !! symbol)).
Proof.
  unfold with_symbol. destruct (symbols c !! symbol) eqn:H; simpl.
  - exact H.
  - apply lookup_insert_eq.
Qed.

Lemma lookup_with_symbol_ne (symbol s : string) (c : Cache) :
  s <> symbol -> symbols (with_symbol symbol c) !! s = symbols c !! s.
Proof.
  intros Hne. unfold with_symbol. destruct (symbols c !! symbol); simpl.
  - reflexivity.
  - apply lookup_insert_ne. congruence.
Qed.

Lemma lookup_with_news (symbol : string) (entry : CacheEntry) (c : Cache)
  (sc : SymbolCache) :
  symbols c !! symbol = Some sc ->
  symbols (with_news symbol entry c) !! symbol
  = Some (mkSymbolCache entry (price sc)).
Proof. intros H. unfold with_news. simpl. by rewrite lookup_alter_eq, H. Qed.

Lemma lookup_with_news_ne (symbol s : string) (entry : CacheEntry) (c : Cache) :
  s <> symbol -> symbols (with_news symbol entry c) !! s = symbols c !! s.
Proof. intros H. unfold with_news. simpl. apply lookup_alter_ne. congruence. Qed.

Lemma lookup_with_price (symbol : string) (entry : CacheEntry) (c : Cache)
  (sc : SymbolCache) :
  symbols c !! symbol = Some sc ->
  symbols (with_price symbol entry c) !! symbol
  = Some (mkSymbolCache (news sc) entry).
Proof. intros H. unfold with_price. simpl. by rewrite lookup_alter_eq, H. Qed.

Lemma lookup_with_price_ne (symbol s : string) (entry : CacheEntry) (c : Cache) :
  s <> symbol -> symbols (with_price symbol entry c) !! s = symbols c !! s.
Proof. intros H. unfold with_price. simpl. apply lookup_alter_ne. congruence. Qed.

End Facts.

(** ** The freshness test *)

(** C4, as it holds of the code.  For every entry and every clock reading
    [now], [isCacheValid] answers without throwing and without touching the
    cache or the upstream, and it answers [true] iff the timestamp is present, is not
    the number 0 (which [!cacheEntry.timestamp] treats like an absent one) and
    [now - timestamp < CACHE_TTL], the TTL being 60 seconds.  It answers
    [false] when the timestamp is absent and already at
    [now - timestamp = CACHE_TTL]; one millisecond earlier a non-zero timestamp
    is still valid. *)
Theorem isCacheValid_iff (E : Env) (w : World) (entry : CacheEntry) :
  exists valid w',
    isCacheValid E (Some entry) w = (inr valid, w') /\
    cache w' = cache w /\ calls w' = calls w /\
    (valid = true <->
       exists t, timestamp entry = Some t /\ t <> 0 /\
                 clock E (reads w) - t < CACHE_TTL) /\
    (timestamp entry = None -> valid = false) /\
    (forall t, timestamp entry = Some t ->
               clock E (reads w) - t = CACHE_TTL -> valid = false) /\
    (forall t, timestamp entry = Some t -> t <> 0 ->
               clock E (reads w) - t = CACHE_TTL - 1 -> valid = true) /\
    CACHE_TTL = 60000.
Proof.
  destruct (isCacheValid_run E (Some entry) w)
    as [[Hrun Hzero]|(e & t & He & Ht & Hne & Hrun)].
  - exists false, w. split; [exact Hrun|].
    split; [reflexivity|]. split; [reflexivity|]. split; [split|].
    + discriminate.
    + intros (t & Ht & Hne & _). exfalso. apply Hne. eauto.
    + split; [reflexivity|]. split; [reflexivity|]. split; [|reflexivity].
      intros t Ht Hne _. exfalso. apply Hne. eauto.
  - injection He as <-. exists (clock E (reads w) - t <? CACHE_TTL), (tick w).
    split; [exact Hrun|].
    split; [reflexivity|]. split; [reflexivity|]. split; [split|].
    + intros Hv. exists t. split; [exact Ht|]. split; [exact Hne|].
      by apply Z.ltb_lt.
    + intros (t' & Ht' & _ & Hlt). rewrite Ht in Ht'. injection Ht' as <-.
      by apply Z.ltb_lt.
    + split; [congruence|]. split; [|split; [|reflexivity]].
      * intros t' Ht' Heq. rewrite Ht in Ht'. injection Ht' as <-.
        apply Z.ltb_ge. lia.
      * intros t' Ht' _ Heq. rewrite Ht in Ht'. injection Ht' as <-.
        apply Z.ltb_lt. lia.
Qed.

(** C4 does not hold as the specification words it.  An entry stamped with the
    epoch (timestamp 0) has a timestamp, and thirty seconds later its age is
    below the TTL, yet [isCacheValid] answers [false]. *)
Lemma isCacheValid_epoch_entry :
  isCacheValid Scenario.env_epoch (Some Scenario.entry_epoch) initial_world
  = (inr false, initial_world) /\
  (exists t, timestamp Scenario.entry_epoch = Some t /\
             clock Scenario.env_epoch (reads initial_world) - t < CACHE_TTL).
Proof. split; [reflexivity|]. exists 0. split; [reflexivity|]. vm_compute. reflexivity. Qed.

(** ** The general-news flow *)

(** A valid general entry is served at once. *)
Lemma general_hit_run (E : Env) (w : World) :
  fst (isCacheValid E (Some (general (cache w))) w) = inr true ->
  get_api_news E w = (mkReply 200 (data (general (cache w))), tick w).
Proof.
  intros Hvalid.
  destruct (isCacheValid_run E (Some (general (cache w))) w)
    as [[Hrun _]|(e & t & _ & _ & _ & Hrun)].
  - rewrite Hrun in Hvalid. discriminate.
  - rewrite Hrun in Hvalid. simpl in Hvalid. injection Hvalid as Hlt.
    unfold get_api_news, try_catch, bind, get_cache.
    rewrite Hrun, Hlt. reflexivity.
Qed.



(** With no key configured nothing is ever fetched, so no entry ever gets a
    timestamp. *)
Lemma never_fetched_serve (E : Env) (q : Request) (w : World) :
  truthy_str (FINNHUB_API_KEY E) = false ->
  never_fetched (cache w) ->
  fst (serve E q w) = configuration_error /\
  calls (snd (serve E q w)) = calls w /\
  never_fetched (cache (snd (serve E q w))).
Proof.
  intros Hkey Hw. destruct q as [|param]; simpl.
  - destruct Hw as [Hg Hs].
    unfold get_api_news, try_catch, bind, get_cache, isCacheValid.
    rewrite Hg. unfold ret. rewrite Hkey. simpl.
    split; [reflexivity|]. split; [reflexivity|]. split; assumption.
  - unfold_server. rewrite Hkey. simpl. unfold with_symbol.
    destruct (symbols (cache w) !! toUpperCase param) eqn:Hlook; simpl.
    + split; [reflexivity|]. split; [reflexivity|]. assumption.
    + split; [reflexivity|]. split; [reflexivity|].
      destruct Hw as [Hg Hs]. split; [assumption|]. simpl.
      intros s sc Hsc.
      destruct (decide (s = toUpperCase param)) as [->|Hne].
      * rewrite lookup_insert_eq in Hsc. injection Hsc as <-. split; reflexivity.
      * rewrite lookup_insert_ne in Hsc by congruence. by eapply Hs.
Qed.

Lemma never_fetched_serve_all (E : Env) (qs : list Request) (w : World) :
  truthy_str (FINNHUB_API_KEY E) = false ->
  never_fetched (cache w) ->
  Forall (fun r => r = configuration_error) (fst (serve_all E qs w)) /\
  calls (snd (serve_all E qs w)) = calls w.
Proof.
  intros Hkey. revert w. induction qs as [|q rest IH]; intros w Hw; simpl.
  - split; [constructor|reflexivity].
  - destruct (never_fetched_serve E q w Hkey Hw) as (Hr & Hc & Hn).
    destruct (serve E q w) as [r w1]. simpl in *.
    destruct (IH w1 Hn) as [Hrs Hcs].
    destruct (serve_all E rest w1) as [rs w2]. simpl in *.
    split; [constructor; assumption|congruence].
Qed.

(** C1, as it holds of the code.  With [FINNHUB_API_KEY] unset (or empty):
    the symbol route replies with the configuration error, status 500, and makes no
    upstream call, whatever the cache holds; the general route does the same
    when its entry is not valid, and serves the cached payload, again without
    an upstream call, when it is.  From the initial cache no entry ever
    becomes valid under such a configuration: every request of every sequence
    is answered by the configuration error and the upstream is never called. *)
Theorem missing_key (E : Env) (w : World) (param : string) :
  truthy_str (FINNHUB_API_KEY E) = false ->
  code configuration_error = 500 /\
  (exists w', get_api_news_symbol E param w = (configuration_error, w') /\
              calls w' = calls w) /\
  (fst (isCacheValid E (Some (general (cache w))) w) <> inr true ->
   exists w', get_api_news E w = (configuration_error, w') /\
              calls w' = calls w /\ cache w' = cache w) /\
  (fst (isCacheValid E (Some (general (cache w))) w) = inr true ->
   exists w', get_api_news E w = (mkReply 200 (data (general (cache w))), w') /\
              calls w' = calls w /\ cache w' = cache w) /\
  (forall qs,
      Forall (fun r => r = configuration_error) (fst (serve_all E qs initial_world)) /\
      calls (snd (serve_all E qs initial_world)) = []).
Proof.
  intros Hkey. split; [reflexivity|]. split; [|split; [|split]].
  - unfold_server. rewrite Hkey. simpl. eexists. split; reflexivity.
  - intros Hinvalid.
    destruct (isCacheValid_run E (Some (general (cache w))) w)
      as [[Hrun _]|(e & t & _ & _ & _ & Hrun)].
    + exists w. unfold get_api_news, try_catch, bind, get_cache.
      rewrite Hrun, Hkey. repeat split.
    + exists (tick w). unfold get_api_news, try_catch, bind, get_cache.
      rewrite Hrun in *. simpl in Hinvalid.
      destruct (clock E (reads w) - t <? CACHE_TTL); [congruence|].
      rewrite Hkey. repeat split.
  - intros Hvalid. exists (tick w).
    split; [by apply general_hit_run|]. split; reflexivity.
  - intros qs. apply never_fetched_serve_all; [assumption|].
    split; [reflexivity|]. intros s sc Hlook. simpl in Hlook.
    rewrite lookup_empty in Hlook. discriminate.
Qed.

(** An instance: without a key, a request for AAPL is refused although both
    entries of AAPL are valid. *)
Lemma missing_key_witness :
  truthy_str (FINNHUB_API_KEY Scenario.env_no_key) = false /\
  exists w',
    get_api_news_symbol Scenario.env_no_key "aapl" Scenario.world_aapl_cached
    = (configuration_error, w') /\
    calls w' = calls Scenario.world_aapl_cached.
Proof.
  split; [reflexivity|].
  apply (missing_key Scenario.env_no_key Scenario.world_aapl_cached "aapl").
  reflexivity.
Defined.

(** C1 does not hold as the specification words it.  No key is configured
    and the general entry is valid: [GET /api/news] replies 200 with the cached
    articles, not with the configuration error. *)
Lemma missing_key_general_cached :
  FINNHUB_API_KEY Scenario.env_no_key = None /\
  get_api_news Scenario.env_no_key Scenario.world_general_cached
  = (mkReply 200 Scenario.articles, tick Scenario.world_general_cached) /\
  code (mkReply 200 Scenario.articles) <> code configuration_error.
Proof. split; [reflexivity|]. split; [vm_compute; reflexivity|]. discriminate. Qed.

(** A general-news request that replied 200 either served the entry it found
    or fetched the news and stored what it replied. *)
Lemma general_news_success (E : Env) (w w1 : World) (r1 : Reply) :
  get_api_news E w = (r1, w1) ->
  code r1 = 200 ->
  (r1 = mkReply 200 (data (general (cache w))) /\ cache w1 = cache w /\
   calls w1 = calls w) \/
  (exists now, r1 = mkReply 200 (data (general (cache w1))) /\
               timestamp (general (cache w1)) = Some now /\
               calls w1 = (calls w ++ [GeneralNews (FINNHUB_API_KEY E)])%list).
Proof.
  intros Hrun Hcode.
  destruct (get_api_news_run E w) as (valid & r0 & _ & _ & Hsum).
  rewrite Hsum in Hrun. clear Hsum. destruct valid.
  { injection Hrun as <- <-. left. repeat split. }
  destruct (negb (truthy_str (FINNHUB_API_KEY E))).
  { injection Hrun as <- <-. discriminate. }
  cbv zeta in Hrun. destruct (outcome _) as [e|n] eqn:Hout.
  - injection Hrun as <- <-. exfalso. by eapply outcome_error_code.
  - injection Hrun as <- <-. right. eexists. repeat split.
Qed.

(** C8, as it holds of the code.  Of two consecutive general-news requests,
    the first of which succeeded (status 200), the second replies with the
    identical status and payload, performs no upstream call and leaves the
    cache unchanged, provided that it reads the clock less than the TTL after
    the timestamp of the general entry the first has left and that this
    timestamp is not the number 0. *)
Theorem general_news_idempotent (E : Env) (w w1 w2 : World) (r1 r2 : Reply) (t : Z) :
  get_api_news E w = (r1, w1) ->
  code r1 = 200 ->
  timestamp (general (cache w1)) = Some t ->
  t <> 0 ->
  clock E (reads w1) - t < CACHE_TTL ->
  get_api_news E w1 = (r2, w2) ->
  r2 = r1 /\ new_calls w1 w2 = [] /\ calls w2 = calls w1 /\ cache w2 = cache w1.
Proof.
  intros Hfirst Hcode Ht Hne Hage Hsecond.
  pose proof (isCacheValid_true E (general (cache w1)) t w1 Ht Hne Hage) as Hvalid.
  rewrite (general_hit_run E w1 Hvalid) in Hsecond. injection Hsecond as <- <-.
  unfold new_calls. simpl. rewrite drop_all.
  split; [|by repeat split].
  destruct (general_news_success E w w1 r1 Hfirst Hcode)
    as [(-> & Hc & _)|(now & -> & _ & _)]; [by rewrite Hc|reflexivity].
Qed.

(** An instance: the first request on the initial cache fetches the articles,
    the second one millisecond later repeats the reply from the cache. *)
Lemma general_news_idempotent_witness :
  let first := get_api_news Scenario.env_priced initial_world in
  let second := get_api_news Scenario.env_priced (snd first) in
  new_calls initial_world (snd first) = [GeneralNews (Some "secret")] /\
  fst second = mkReply 200 Scenario.articles /\
  fst second = fst first /\ new_calls (snd first) (snd second) = [] /\
  calls (snd second) = calls (snd first) /\ cache (snd second) = cache (snd first).
Proof.
  split; [vm_compute; reflexivity|]. split; [vm_compute; reflexivity|].
  apply (general_news_idempotent Scenario.env_priced initial_world
           (snd (get_api_news Scenario.env_priced initial_world))
           (snd (get_api_news Scenario.env_priced
                   (snd (get_api_news Scenario.env_priced initial_world))))
           (fst (get_api_news Scenario.env_priced initial_world))
           (fst (get_api_news Scenario.env_priced
                   (snd (get_api_news Scenario.env_priced initial_world))))
           1700000000000);
    first [discriminate | vm_compute; reflexivity].
Defined.

(** C8 does not hold as the specification words it.  With the clock at the
    epoch the first request stamps its write with [Date.now() = 0]; the second
    request arrives within the TTL of that write (its age is 0), yet it calls
    the upstream again. *)
Lemma general_news_epoch_refetch :
  let E := Scenario.env_at_epoch in
  let first := get_api_news E initial_world in
  let second := get_api_news E (snd first) in
  code (fst first) = 200 /\
  general (cache (snd first)) = mkEntry Scenario.articles (Some 0) /\
  clock E (reads (snd first)) - 0 < CACHE_TTL /\
  new_calls (snd first) (snd second) = [GeneralNews (Some "secret")].
Proof. vm_compute. repeat split. Qed.

(** ** The symbol flow *)

(** The record the handler works on exists once [init_symbol] has run. *)
Lemma symbol_record (symbol : string) (c : Cache) :
  exists sc, symbols (with_symbol symbol c) !! symbol = Some sc /\
             sc = default (mkSymbolCache empty_entry empty_entry) (symbols c !! symbol).
Proof. eexists. split; [apply lookup_with_symbol|reflexivity]. Qed.

(** Runs the news block inside the hypothesis [Hrun], from a world whose
    record for the symbol is known by [Hsc]; leaves one goal per branch:
    served from cache, fetch failed, fetched. *)
Ltac news_block E Hsc Hrun :=
  let valid := fresh "news_valid" in
  let r0 := fresh "r0" in
  let r1 := fresh "r1" in
  let url := fresh "news_call" in
  let Hv := fresh "Hnews_valid" in
  let Hr0 := fresh "Hr0" in
  let Hr0' := fresh "Hr0'" in
  let Hr1 := fresh "Hr1" in
  let Hurl := fresh "Hnews_url" in
  let Hq := fresh "Hnot_quote" in
  let Hsum := fresh "Hsum" in
  let Hout := fresh "Hnews_outcome" in
  match type of Hrun with
  | context [resolve_news E ?symbol ?source ?w] =>
      destruct (resolve_news_run E symbol source _ w Hsc)
        as (valid & r0 & Hv & Hr0 & Hr0' & Hsum);
      cbn beta iota delta [cache reads calls] in Hv, Hr0, Hr0', Hsum;
      destruct valid;
      [ rewrite Hsum in Hrun; clear Hsum; specialize (Hr0' eq_refl)
      | clear Hr0'; destruct Hsum as (url & r1 & Hurl & Hr1 & Hq & Hsum);
        rewrite Hsum in Hrun; clear Hsum;
        destruct (outcome (upstream E _ url)) as [?e|?n] eqn:Hout ]
  end.

(** Runs the price block likewise: served from cache, fetch failed, price
    unreadable, fetched. *)
Ltac price_block E Hsc Hrun :=
  let valid := fresh "price_valid" in
  let r0 := fresh "p0" in
  let Hv := fresh "Hprice_valid" in
  let Hr0 := fresh "Hp0" in
  let Hsum := fresh "Hsum" in
  let Hout := fresh "Hprice_outcome" in
  let Hcur := fresh "Hcurrent" in
  match type of Hrun with
  | context [resolve_price E ?symbol ?source ?w] =>
      destruct (resolve_price_run E symbol source _ w Hsc)
        as (valid & r0 & Hv & Hr0 & Hsum);
      cbn beta iota zeta delta [cache reads calls] in Hv, Hr0, Hsum;
      destruct valid;
      [ rewrite Hsum in Hrun; clear Hsum
      | rewrite Hsum in Hrun; clear Hsum;
        destruct (outcome (upstream E _ (Quote symbol (FINNHUB_API_KEY E))))
          as [?e|?quote] eqn:Hout;
        [ | match type of Hrun with
            | context [current_price ?d] =>
                destruct (current_price d) as [?e|?p] eqn:Hcur
            end ] ]
  end.

(** Follows [Hrun : get_api_news_symbol E param w = (reply, w')] down every
    path of the handler.  The goals come in this order: no key; news served
    from cache, then the four branches of the price block; news fetch failed;
    news fetched, then the four branches of the price block. *)
Ltac symbol_paths E Hrun :=
  let sc := fresh "sc" in
  let Hsc := fresh "Hsc" in
  let Hdef := fresh "Hsc_def" in
  let Hsc' := fresh "Hsc'" in
  let Hkey := fresh "Hkey" in
  rewrite get_api_news_symbol_run in Hrun; cbv zeta in Hrun;
  match type of Hrun with
  | context [with_symbol ?symbol ?c] =>
      destruct (symbol_record symbol c) as (sc & Hsc & Hdef);
      destruct (negb (truthy_str (FINNHUB_API_KEY E))) eqn:Hkey;
      [ injection Hrun as <- <-
      | news_block E Hsc Hrun;
        [ price_block E Hsc Hrun; injection Hrun as <- <-
        | injection Hrun as <- <-
        | match type of Hrun with
          | context [with_news symbol ?entry ?c'] =>
              pose proof (lookup_with_news symbol entry c' sc Hsc) as Hsc';
              price_block E Hsc' Hrun; injection Hrun as <- <-
          end ] ]
  end.

(** ** Upstream failures *)

Section Log.

Context {A : Type}.
Implicit Types (l : list A) (a b u : A) (k : nat).

Lemma lookup_log_0 l k u : (length l <= k)%nat -> l !! k = Some u -> False.
Proof. intros Hk Hu. apply lookup_lt_Some in Hu. lia. Qed.

Lemma lookup_log_1 l a k u :
  (length l <= k)%nat -> (l ++ [a])%list !! k = Some u -> k = length l /\ u = a.
Proof.
  intros Hk Hu. rewrite lookup_app_r in Hu by assumption.
  destruct (k - length l)%nat as [|n] eqn:Hd; simpl in Hu; [|discriminate].
  split; [lia|congruence].
Qed.

Lemma lookup_log_2 l a b k u :
  (length l <= k)%nat -> ((l ++ [a]) ++ [b])%list !! k = Some u ->
  (k = length l /\ u = a) \/ (k = length (l ++ [a])%list /\ u = b).
Proof.
  intros Hk Hu. destruct (decide (k = length l)) as [->|Hne].
  - left. split; [reflexivity|].
    rewrite <- app_assoc, lookup_app_r, Nat.sub_diag in Hu by lia.
    simpl in Hu. congruence.
  - right. apply lookup_log_1 in Hu; [assumption|].
    rewrite length_app. simpl. lia.
Qed.

End Log.

(** Locates in the log the call a hypothesis speaks of: its index is
    substituted, the identity of the call is left as a hypothesis. *)
Ltac locate_call :=
  let Hindex := fresh "Hindex" in
  let Hcall := fresh "Hcall" in
  match goal with
  | Hk : (length ?l <= ?k)%nat, H : ((?l ++ [_]) ++ [_])%list !! ?k = Some _ |- _ =>
      destruct (lookup_log_2 _ _ _ _ _ Hk H) as [[Hindex Hcall]|[Hindex Hcall]];
      subst k
  | Hk : (length ?l <= ?k)%nat, H : (?l ++ [_])%list !! ?k = Some _ |- _ =>
      destruct (lookup_log_1 _ _ _ _ Hk H) as [Hindex Hcall]; subst k
  | Hk : (length ?l <= ?k)%nat, H : ?l !! ?k = Some _ |- _ =>
      destruct (lookup_log_0 _ _ _ Hk H)
  end.

(** An answer whose outcome is known: what the handler's [catch] block makes
    of it. *)
Lemma outcome_surfaces (res : FetchResult) (r : Response) (category : string) :
  res = Resolved r ->
  (forall v, outcome res = inr v -> ok r = true) /\
  (forall e, outcome res = inl e ->
     (status r = 429 -> on_error category e = rate_limit_error) /\
     (ok r = false -> status r <> 429 -> status r <> 0 ->
      code (on_error category e) = status r)).
Proof.
  intros ->. simpl. split.
  - intros v Hv. by apply check_response_inr in Hv as [Hok _].
  - intros e He. split.
    + intros H429. rewrite (check_response_429 r H429) in He. by injection He as <-.
    + intros Hok Hne Hnz. rewrite (check_response_not_ok r Hok Hne) in He.
      injection He as <-. rewrite on_error_code. simpl.
      destruct (status r =? 0) eqn:Hz; [|reflexivity].
      apply Z.eqb_eq in Hz. contradiction.
Qed.

(** C7.  Whenever an upstream call made while serving a request (general
    news, company news or quote) is answered with status 429, the reply is
    the rate-limit reply: status 429, category "Rate limit exceeded".  When it
    is answered with any other non-success status (an HTTP status code, hence
    not 0), the reply carries that same status code. *)
Theorem upstream_status_surfaces (E : Env) (q : Request) (w : World) (r : Response) :
  answered E w (snd (serve E q w)) r ->
  (status r = 429 -> fst (serve E q w) = rate_limit_error) /\
  (ok r = false -> status r <> 429 -> status r <> 0 ->
   code (fst (serve E q w)) = status r) /\
  code rate_limit_error = 429 /\
  reply_field rate_limit_error "error" = Some (JStr "Rate limit exceeded").
Proof.
  intros (k & url & Hk & Hlook & Hup).
  destruct (serve E q w) as [reply w'] eqn:Hrun. simpl in Hlook |- *.
  assert (ok r = true -> status r <> 429) as Hok429
      by (rewrite ok_range; lia).
  assert ((status r = 429 -> reply = rate_limit_error) /\
          (ok r = false -> status r <> 429 -> status r <> 0 -> code reply = status r))
    as [H429 Hother]; [|by repeat split].
  destruct q as [|param]; simpl in Hrun.
  - destruct (get_api_news_run E w) as (valid & r0 & _ & _ & Hsum).
    rewrite Hsum in Hrun. clear Hsum. destruct valid.
    { injection Hrun as <- <-. simpl in Hlook. locate_call. }
    destruct (negb (truthy_str (FINNHUB_API_KEY E))).
    { injection Hrun as <- <-. simpl in Hlook. locate_call. }
    cbv zeta in Hrun. destruct (outcome _) as [e|n] eqn:Hout;
      injection Hrun as <- <-; simpl in Hlook; locate_call; subst url;
      destruct (outcome_surfaces _ r "Failed to fetch news" Hup) as [Hv He].
    + by apply He.
    + specialize (Hv _ Hout). split; intros; [by destruct Hok429|congruence].
  - symbol_paths E Hrun; simpl in Hlook; locate_call; subst url;
      destruct (outcome_surfaces _ r "Failed to fetch news/price" Hup) as [Hv He];
      match goal with
      | Hout : outcome (upstream E ?k ?u) = inl ?e,
        Hup : upstream E ?k ?u = Resolved r |- _ => by apply He
      | Hout : outcome (upstream E ?k ?u) = inr ?v,
        Hup : upstream E ?k ?u = Resolved r |- _ =>
          specialize (Hv _ Hout); split; intros; [by destruct Hok429|congruence]
      end.
Qed.

(** Two instances: a 429 on the company-news call, and a 404 on the
    general-news call. *)
Lemma upstream_status_surfaces_witness :
  answered Scenario.env_rate_limited initial_world
    (snd (serve Scenario.env_rate_limited (GetSymbolNews "tsla") initial_world))
    (mkResponse 429 "Too Many Requests" (inl "invalid json response body")) /\
  fst (serve Scenario.env_rate_limited (GetSymbolNews "tsla") initial_world)
  = rate_limit_error /\
  answered Scenario.env_not_found initial_world
    (snd (serve Scenario.env_not_found GetNews initial_world))
    (mkResponse 404 "Not Found" (inl "invalid json response body")) /\
  code (fst (serve Scenario.env_not_found GetNews initial_world)) = 404.
Proof.
  assert (answered Scenario.env_rate_limited initial_world
            (snd (serve Scenario.env_rate_limited (GetSymbolNews "tsla") initial_world))
            (mkResponse 429 "Too Many Requests" (inl "invalid json response body")))
    as Hlimited.
  { exists 0%nat. eexists. split; [simpl; lia|]. split; vm_compute; reflexivity. }
  assert (answered Scenario.env_not_found initial_world
            (snd (serve Scenario.env_not_found GetNews initial_world))
            (mkResponse 404 "Not Found" (inl "invalid json response body")))
    as Hmissing.
  { exists 0%nat. eexists. split; [simpl; lia|]. split; vm_compute; reflexivity. }
  split; [exact Hlimited|]. split.
  - apply (upstream_status_surfaces Scenario.env_rate_limited (GetSymbolNews "tsla")
             initial_world _ Hlimited).
    reflexivity.
  - split; [exact Hmissing|].
    apply (upstream_status_surfaces Scenario.env_not_found GetNews
             initial_world _ Hmissing); [reflexivity|discriminate|discriminate].
Defined.

(** ** The price of a symbol *)

(** [priceData.c || null] is [null] as soon as the field is falsy or absent. *)
Lemma current_price_falsy (priceData : value) :
  priceData <> JNull ->
  (forall fields v, priceData = JObj fields -> field "c" fields = Some v ->
                    truthy v = false) ->
  current_price priceData = inr JNull.
Proof.
  intros Hnull Hfalsy. destruct priceData as [| | | | |fields]; simpl; try done.
  destruct (field "c" fields) as [v|] eqn:Hc; [|reflexivity].
  by rewrite (Hfalsy fields v eq_refl Hc).
Qed.

Lemma outcome_resolved (res : FetchResult) (r : Response) (v : value) :
  res = Resolved r -> ok r = true -> json r = inr v -> outcome res = inr v.
Proof. intros -> Hok Hjson. simpl. by apply check_response_inr. Qed.

(** C9.  When a symbol request fetches the quote and the upstream answers
    with a body (other than [null]) whose current-price field [c] is falsy or
    absent, the reply is a 200 whose [price] is [null], and the price entry
    stored for the symbol holds [null] with a timestamp.  The falsy values
    include the number 0 (and -0), [null], [false] and the empty string, so a
    genuine price of 0 is served and cached as [null]. *)
Theorem falsy_price_is_null (E : Env) (param : string) (w w' : World)
    (reply : Reply) (k : nat) (r : Response) (priceData : value) :
  get_api_news_symbol E param w = (reply, w') ->
  (length (calls w) <= k)%nat ->
  calls w' !! k = Some (Quote (toUpperCase param) (FINNHUB_API_KEY E)) ->
  upstream E k (Quote (toUpperCase param) (FINNHUB_API_KEY E)) = Resolved r ->
  ok r = true ->
  json r = inr priceData ->
  priceData <> JNull ->
  (forall fields v, priceData = JObj fields -> field "c" fields = Some v ->
                    truthy v = false) ->
  (code reply = 200 /\ reply_field reply "price" = Some JNull /\
   exists sc t, symbols (cache w') !! toUpperCase param = Some sc /\
                price sc = mkEntry JNull (Some t)) /\
  truthy (JNum 0) = false /\ truthy (JNum (-0)) = false /\ truthy JNull = false /\
  truthy (JBool false) = false /\ truthy (JStr "") = false.
Proof.
  intros Hrun Hk Hlook Hup Hok Hjson Hnull Hfalsy.
  split; [|by repeat split].
  pose proof (outcome_resolved _ r priceData Hup Hok Hjson) as Hout.
  pose proof (current_price_falsy priceData Hnull Hfalsy) as Hcur.
  symbol_paths E Hrun; simpl in Hlook; locate_call;
    try (subst; discriminate);
    try match goal with
        | H1 : outcome ?x = inr priceData, H2 : outcome ?x = _ |- _ =>
            rewrite H1 in H2; simplify_eq
        end.
  all: rewrite Hcur in *; simplify_eq.
  all: split; [reflexivity|]; split; [reflexivity|]; do 2 eexists;
    cbn beta iota delta [cache].
  all: split;
    [eapply lookup_with_price;
     first [eassumption|eapply lookup_with_news; eassumption]
    |reflexivity].
Qed.

(** An instance: a quote whose current price is 0. *)
Lemma falsy_price_is_null_witness :
  let run := get_api_news_symbol Scenario.env_zero_price "aapl" initial_world in
  calls (snd run) !! 1%nat = Some (Quote "AAPL" (Some "secret")) /\
  fst run = mkReply 200 (symbol_response "AAPL" JNull Scenario.articles "api") /\
  code (fst run) = 200 /\ reply_field (fst run) "price" = Some JNull /\
  exists sc t, symbols (cache (snd run)) !! "AAPL" = Some sc /\
               price sc = mkEntry JNull (Some t).
Proof.
  split; [vm_compute; reflexivity|]. split; [vm_compute; reflexivity|].
  refine (proj1 (falsy_price_is_null Scenario.env_zero_price "aapl" initial_world
                   (snd (get_api_news_symbol Scenario.env_zero_price "aapl" initial_world))
                   (fst (get_api_news_symbol Scenario.env_zero_price "aapl" initial_world))
                   1%nat
                   (mkResponse 200 "OK"
                      (inr (JObj [("c", JNum 0); ("h", JNum 190.5%float)])))
                   (JObj [("c", JNum 0); ("h", JNum 190.5%float)])
                   _ _ _ _ _ _ _ _)).
  - vm_compute. reflexivity.
  - simpl. lia.
  - vm_compute. reflexivity.
  - reflexivity.
  - reflexivity.
  - reflexivity.
  - discriminate.
  - intros fields v [= <-]. simpl. intros [= <-]. vm_compute. reflexivity.
Defined.

(** ** The [source] field *)

Lemma new_calls_same (w : World) (c : Cache) (r : nat) :
  new_calls w (mkWorld c r (calls w)) = [].
Proof. unfold new_calls. simpl. apply drop_all. Qed.

Lemma new_calls_app (w : World) (c : Cache) (r : nat) (l : list UpstreamCall) :
  new_calls w (mkWorld c r (calls w ++ l)) = l.
Proof. unfold new_calls. simpl. apply drop_app_length. Qed.

Lemma new_calls_app2 (w : World) (c : Cache) (r : nat) (a b : UpstreamCall) :
  new_calls w (mkWorld c r ((calls w ++ [a]) ++ [b])) = [a; b].
Proof. rewrite <- app_assoc. apply new_calls_app. Qed.

Lemma source_of_response (symbol : string) (p n : value) (source : string) :
  reply_field (mkReply 200 (symbol_response symbol p n source)) "source"
  = Some (JStr source).
Proof. reflexivity. Qed.

Lemma news_of_response (symbol : string) (p n : value) (source : string) :
  reply_field (mkReply 200 (symbol_response symbol p n source)) "news"
  = Some (if isArray n then n else JArr []).
Proof. reflexivity. Qed.

(** C5.  For every successful symbol request (status 200) the [source] field
    of the reply is "api" iff the request made at least one upstream call, and
    "cache" iff it made none, which is the case iff the news entry was valid
    when the request looked at it and the price entry was valid at the
    following clock reading, so that both were served from the cache. *)
Theorem source_field (E : Env) (param : string) (w w' : World) (reply : Reply) :
  get_api_news_symbol E param w = (reply, w') ->
  code reply = 200 ->
  let sc := default (mkSymbolCache empty_entry empty_entry)
              (symbols (cache w) !! toUpperCase param) in
  let news_cached := fst (isCacheValid E (Some (news sc)) w) = inr true in
  let price_cached := fst (isCacheValid E (Some (price sc)) (tick w)) = inr true in
  (reply_field reply "source" = Some (JStr "api") <-> new_calls w w' <> []) /\
  (reply_field reply "source" = Some (JStr "cache") <-> new_calls w w' = []) /\
  (reply_field reply "source" = Some (JStr "cache") <->
   news_cached /\ price_cached) /\
  (news_cached -> price_cached ->
   reply = mkReply 200
             (symbol_response (toUpperCase param) (data (price sc))
                (data (news sc)) "cache")).
Proof.
  intros Hrun Hcode sc0 news_cached price_cached.
  subst news_cached price_cached.
  symbol_paths E Hrun;
    try (exfalso; revert Hcode; first
           [ discriminate
           | eapply outcome_error_code; eassumption
           | eapply current_price_error_code; eassumption ]);
    subst sc sc0;
    rewrite ?new_calls_same, ?new_calls_app, ?new_calls_app2;
    repeat match goal with
      | H : isCacheValid E ?ce ?w0 = (inr ?b, _) |- _ =>
          let H' := fresh "Hfst" in
          assert (fst (isCacheValid E ce w0) = inr b) as H' by (by rewrite H);
          clear H
      end.
  all: try subst r0.
  all: repeat match goal with
         | H : fst (isCacheValid ?E ?ce (mkWorld ?c (reads ?w) ?l)) = _ |- _ =>
             rewrite (isCacheValid_reads E ce w (mkWorld c (reads w) l) eq_refl) in H
         | H : fst (isCacheValid ?E ?ce (mkWorld ?c (S (reads ?w)) ?l)) = _ |- _ =>
             rewrite (isCacheValid_reads E ce (tick w) (mkWorld c (S (reads w)) l)
                        eq_refl) in H
         end.
  all: cbn beta iota delta [price news] in *.
  all: rewrite source_of_response.
  all: intuition congruence.
Qed.

(** An instance: news and price of AAPL both served from valid entries. *)
Lemma source_field_witness :
  let run := get_api_news_symbol Scenario.env_priced "aapl" Scenario.world_aapl_cached in
  code (fst run) = 200 /\
  reply_field (fst run) "source" = Some (JStr "cache") /\
  new_calls Scenario.world_aapl_cached (snd run) = [].
Proof.
  split; [reflexivity|]. split; [vm_compute; reflexivity|].
  apply (source_field Scenario.env_priced "aapl" Scenario.world_aapl_cached
           (snd (get_api_news_symbol Scenario.env_priced "aapl"
                   Scenario.world_aapl_cached))
           (fst (get_api_news_symbol Scenario.env_priced "aapl"
                   Scenario.world_aapl_cached)));
    vm_compute; reflexivity.
Defined.

(** ** Order and frame of the symbol flow *)

Lemma general_with_symbol (symbol : string) (c : Cache) :
  general (with_symbol symbol c) = general c.
Proof. unfold with_symbol. by destruct (symbols c !! symbol). Qed.

Lemma general_with_news (symbol : string) (entry : CacheEntry) (c : Cache) :
  general (with_news symbol entry c) = general c.
Proof. reflexivity. Qed.

Lemma general_with_price (symbol : string) (entry : CacheEntry) (c : Cache) :
  general (with_price symbol entry c) = general c.
Proof. reflexivity. Qed.

(** C10.  A symbol request leaves the general entry and the records of all
    other symbols as they were.  Its upstream calls are at most one news call
    followed by at most one quote call.  If the news call fails, it is the
    only call of the request (the quote is never fetched), the request fails
    with that error, and the record of the symbol holds the same price entry
    (and news entry) as before the request, the empty ones if the record has
    just been created. *)
Theorem news_before_price (E : Env) (param : string) (w w' : World) (reply : Reply) :
  get_api_news_symbol E param w = (reply, w') ->
  let symbol := toUpperCase param in
  let before := default (mkSymbolCache empty_entry empty_entry)
                  (symbols (cache w) !! symbol) in
  general (cache w') = general (cache w) /\
  (forall s, s <> symbol -> symbols (cache w') !! s = symbols (cache w) !! s) /\
  (exists ns qs,
      new_calls w w' = (ns ++ qs)%list /\
      (length ns <= 1)%nat /\ (length qs <= 1)%nat /\
      Forall (fun url => is_quote url = false) ns /\
      Forall (fun url => is_quote url = true) qs) /\
  (forall url e,
      In url (new_calls w w') -> is_quote url = false ->
      outcome (upstream E (length (calls w)) url) = inl e ->
      new_calls w w' = [url] /\
      reply = on_error "Failed to fetch news/price" e /\ code reply <> 200 /\
      exists after, symbols (cache w') !! symbol = Some after /\
                    price after = price before /\ news after = news before).
Proof.
  intros Hrun symbol before. subst symbol before.
  symbol_paths E Hrun; subst sc;
    rewrite ?new_calls_same, ?new_calls_app, ?new_calls_app2;
    cbn beta iota delta [cache].
  all: split;
    [by rewrite ?general_with_price, ?general_with_news, ?general_with_symbol|].
  all: split;
    [intros s Hs;
     rewrite ?lookup_with_price_ne, ?lookup_with_news_ne, ?lookup_with_symbol_ne
       by assumption; reflexivity|].
  all: split;
    [ lazymatch goal with
      | |- exists ns qs, [] = _ /\ _ => exists [], []
      | |- exists ns qs, [Quote ?s ?k] = _ /\ _ => exists [], [Quote s k]
      | |- exists ns qs, [?n] = _ /\ _ => exists [n], []
      | |- exists ns qs, [?n; ?q] = _ /\ _ => exists [n], [q]
      end;
      split_and!; simpl; try lia; try done; repeat constructor; done
    | ].
  all: intros url e' Hin Hnews Hfail; simpl in Hin.
  all: repeat match goal with
         | H : _ \/ _ |- _ => destruct H
         | H : False |- _ => destruct H
         end; subst; try discriminate.
  all: match goal with
       | H1 : outcome ?x = _, H2 : outcome ?x = _ |- _ =>
           rewrite H1 in H2; simplify_eq
       end.
  split_and!; [reflexivity|reflexivity|by eapply outcome_error_code|].
  eexists. split_and!; [eassumption|reflexivity|reflexivity].
Qed.

(** An instance: the company-news call for TSLA is rate-limited while AAPL is
    cached. *)
Lemma news_before_price_witness :
  let w := Scenario.world_aapl_cached in
  let run := get_api_news_symbol Scenario.env_rate_limited "tsla" w in
  fst run = rate_limit_error /\
  general (cache (snd run)) = general (cache w) /\
  symbols (cache (snd run)) !! "AAPL" = symbols (cache w) !! "AAPL".
Proof.
  split; [vm_compute; reflexivity|].
  assert (get_api_news_symbol Scenario.env_rate_limited "tsla"
            Scenario.world_aapl_cached
          = (fst (get_api_news_symbol Scenario.env_rate_limited "tsla"
                    Scenario.world_aapl_cached),
             snd (get_api_news_symbol Scenario.env_rate_limited "tsla"
                    Scenario.world_aapl_cached))) as Hrun
      by (vm_compute; reflexivity).
  destruct (news_before_price Scenario.env_rate_limited "tsla"
              Scenario.world_aapl_cached _ _ Hrun) as (Hgeneral & Hothers & _).
  split; [exact Hgeneral|]. apply Hothers. discriminate.
Defined.

(** ** A price failure after a news success *)

(** With a clock that never goes backwards, an entry found invalid stays
    invalid. *)
Lemma isCacheValid_stays_invalid (E : Env) :
  (forall i j, (i <= j)%nat -> clock E i <= clock E j) ->
  forall (cacheEntry : option CacheEntry) (wa wa' wb : World),
    isCacheValid E cacheEntry wa = (inr false, wa') ->
    (reads wa <= reads wb)%nat ->
    fst (isCacheValid E cacheEntry wb) = inr false.
Proof.
  intros Hmono cacheEntry wa wa' wb Hinvalid Hlater.
  destruct (isCacheValid_summary E cacheEntry wb)
    as (valid & wb' & Hrun & _ & _ & _ & Htrue & _).
  rewrite Hrun. simpl. destruct valid; [exfalso|reflexivity].
  destruct (Htrue eq_refl) as (_ & entry & t & Hentry & Ht & Hne & Hfresh).
  pose proof (isCacheValid_false E cacheEntry wa wa' Hinvalid entry t Hentry Ht Hne).
  specialize (Hmono _ _ Hlater). lia.
Qed.

(** A symbol request that finds the news entry valid: it makes no news call,
    fetches the quote exactly when the price entry is not valid at the next
    clock reading, keeps the news entry and, if it succeeds, serves the
    cached news. *)
Lemma request_with_valid_news (E : Env) (param : string) (w w' : World)
    (reply : Reply) (sc : SymbolCache) :
  truthy_str (FINNHUB_API_KEY E) = true ->
  symbols (cache w) !! toUpperCase param = Some sc ->
  get_api_news_symbol E param w = (reply, w') ->
  fst (isCacheValid E (Some (news sc)) w) = inr true ->
  (forall url, In url (new_calls w w') ->
               url = Quote (toUpperCase param) (FINNHUB_API_KEY E)) /\
  (fst (isCacheValid E (Some (price sc)) (tick w)) = inr false ->
   new_calls w w' = [Quote (toUpperCase param) (FINNHUB_API_KEY E)]) /\
  (exists sc', symbols (cache w') !! toUpperCase param = Some sc' /\
               news sc' = news sc) /\
  (code reply = 200 ->
   reply_field reply "news"
   = Some (if isArray (data (news sc)) then data (news sc) else JArr [])).
Proof.
  intros Hconfigured Hlook Hrun Hvalid.
  symbol_paths E Hrun;
    [rewrite Hconfigured in Hkey; discriminate|..];
    rewrite ?new_calls_same, ?new_calls_app, ?new_calls_app2;
    rewrite Hlook in Hsc_def; simpl in Hsc_def; subst sc0;
    repeat match goal with
      | H : isCacheValid E ?ce ?w0 = (inr ?b, _) |- _ =>
          let H' := fresh "Hfst" in
          assert (fst (isCacheValid E ce w0) = inr b) as H' by (by rewrite H);
          clear H
      end;
    try subst r0;
    repeat match goal with
      | H : fst (isCacheValid ?E ?ce (mkWorld ?c (reads ?w) ?l)) = _ |- _ =>
          rewrite (isCacheValid_reads E ce w (mkWorld c (reads w) l) eq_refl) in H
      | H : fst (isCacheValid ?E ?ce (mkWorld ?c (S (reads ?w)) ?l)) = _ |- _ =>
          rewrite (isCacheValid_reads E ce (tick w) (mkWorld c (S (reads w)) l)
                     eq_refl) in H
      end;
    try congruence.
  all: split_and!.
  all: try (intros url Hin; simpl in Hin; by intuition).
  all: try (intros; congruence).
  all: try (eexists; split;
            [first [eassumption|eapply lookup_with_price; eassumption]
            |reflexivity]).
  all: intros Hcode; try (by rewrite news_of_response); exfalso; revert Hcode.
  all: first [ eapply outcome_error_code; eassumption
             | eapply current_price_error_code; eassumption ].
Qed.

(** C3, as it holds of the code.  Suppose a symbol request went to the
    upstream for both the news and the price (its news fetch therefore
    succeeded, a failed one ending the request) and the price could not be
    obtained from the quote endpoint's answer.  Then the request fails: its
    reply is the error reply, not a 200.  Yet the news entry of the symbol
    holds the payload just fetched, stamped with a clock reading [t] taken
    during the request, and the price entry is as before.  A following request
    for the symbol that reads the clock less than the TTL after [t], [t] not
    being the number 0, makes no news call: its only possible upstream call is
    the quote, which it does make when the clock never goes backwards; it
    leaves the news entry untouched and, if it succeeds, serves the cached
    news. *)
Theorem price_failure_keeps_news (E : Env) (param : string) (w w1 w2 : World)
    (r1 r2 : Reply) (news_call : UpstreamCall) (e : Error) :
  let symbol := toUpperCase param in
  let quote := Quote symbol (FINNHUB_API_KEY E) in
  let before := default (mkSymbolCache empty_entry empty_entry)
                  (symbols (cache w) !! symbol) in
  get_api_news_symbol E param w = (r1, w1) ->
  new_calls w w1 = [news_call; quote] ->
  price_outcome (upstream E (S (length (calls w))) quote) = inl e ->
  r1 = on_error "Failed to fetch news/price" e /\ code r1 <> 200 /\
  exists n t sc,
    outcome (upstream E (length (calls w)) news_call) = inr n /\
    symbols (cache w1) !! symbol = Some sc /\
    news sc = mkEntry n (Some t) /\
    (exists i, (reads w <= i < reads w1)%nat /\ t = clock E i) /\
    price sc = price before /\
    (get_api_news_symbol E param w1 = (r2, w2) ->
     t <> 0 ->
     clock E (reads w1) - t < CACHE_TTL ->
     (forall url, In url (new_calls w1 w2) -> url = quote) /\
     ((forall i j, (i <= j)%nat -> clock E i <= clock E j) ->
      new_calls w1 w2 = [quote]) /\
     (exists sc2, symbols (cache w2) !! symbol = Some sc2 /\ news sc2 = news sc) /\
     (code r2 = 200 ->
      reply_field r2 "news" = Some (if isArray n then n else JArr []))).
Proof.
  intros symbol quote before Hrun Hcalls Hfail. subst symbol quote before.
  unfold price_outcome in Hfail.
  symbol_paths E Hrun;
    rewrite ?new_calls_same, ?new_calls_app, ?new_calls_app2 in Hcalls;
    try discriminate Hcalls.
  all: injection Hcalls as <-.
  all: rewrite length_app, Nat.add_1_r in *; cbn [length] in *.
  all: rewrite Hprice_outcome in Hfail; try rewrite Hcurrent in Hfail;
    try discriminate Hfail; injection Hfail as <-.
  all: split; [reflexivity|].
  all: split;
    [first [ eapply outcome_error_code; eassumption
           | eapply current_price_error_code; eassumption ]|].
  all: exists n, (clock E r3), (mkSymbolCache (mkEntry n (Some (clock E r3))) (price sc)).
  all: cbn beta iota delta [cache reads calls news price].
  all: split; [assumption|]; split; [assumption|]; split; [reflexivity|].
  all: split; [exists r3; split; [lia|reflexivity]|].
  all: split; [by subst sc|].
  all: intros Hrun2 Hne2 Hage2.
  all: apply negb_false_iff in Hkey.
  all: match type of Hrun2 with
       | get_api_news_symbol _ _ ?w1 = _ =>
           match type of Hsc' with
           | _ = Some ?sc' =>
               destruct (request_with_valid_news E param w1 w2 r2 _ Hkey Hsc' Hrun2
                           (isCacheValid_true E (news sc') _ w1 eq_refl Hne2 Hage2))
                 as (Honly & Hquote & Hkept & Hserved)
           end
       end.
  all: split; [exact Honly|]; split; [|split; [exact Hkept|exact Hserved]].
  all: intros Hmono; apply Hquote.
  all: eapply (isCacheValid_stays_invalid E Hmono); [exact Hprice_valid|].
  all: simpl; lia.
Qed.

(** An instance: the quote endpoint answers 503 on the first request for
    AAPL; the second request only calls the quote endpoint. *)
Lemma price_failure_keeps_news_witness :
  let E := Scenario.env_quote_down in
  let first := get_api_news_symbol E "aapl" initial_world in
  let second := get_api_news_symbol E "aapl" (snd first) in
  new_calls initial_world (snd first)
  = [CompanyNews "AAPL" (DateDaysAgo 1700000000000 7) (CurrentDate 1700000000001)
       (Some "secret");
     Quote "AAPL" (Some "secret")] /\
  code (fst first) = 503 /\
  (exists sc, symbols (cache (snd first)) !! "AAPL" = Some sc /\
              news sc = mkEntry Scenario.articles (Some 1700000000002)) /\
  new_calls (snd first) (snd second) = [Quote "AAPL" (Some "secret")].
Proof.
  split; [vm_compute; reflexivity|]. split; [vm_compute; reflexivity|].
  split; [eexists; split; vm_compute; reflexivity|].
  destruct (price_failure_keeps_news Scenario.env_quote_down "aapl" initial_world
              (snd (get_api_news_symbol Scenario.env_quote_down "aapl" initial_world))
              (snd (get_api_news_symbol Scenario.env_quote_down "aapl"
                      (snd (get_api_news_symbol Scenario.env_quote_down "aapl"
                              initial_world))))
              (fst (get_api_news_symbol Scenario.env_quote_down "aapl" initial_world))
              (fst (get_api_news_symbol Scenario.env_quote_down "aapl"
                      (snd (get_api_news_symbol Scenario.env_quote_down "aapl"
                              initial_world))))
              (CompanyNews "AAPL" (DateDaysAgo 1700000000000 7)
                 (CurrentDate 1700000000001) (Some "secret"))
              (mkError (Some 503) "Finnhub API error: Service Unavailable"))
    as (_ & _ & n & t & sc & _ & Hsc & Hnews & _ & _ & Hnext).
  - vm_compute. reflexivity.
  - vm_compute. reflexivity.
  - vm_compute. reflexivity.
  - vm_compute in Hsc. injection Hsc as <-.
    simpl in Hnews. injection Hnews as _ <-.
    destruct Hnext as (_ & Hquote & _).
    + vm_compute. reflexivity.
    + discriminate.
    + vm_compute. reflexivity.
    + apply Hquote. intros i j Hij. unfold Scenario.env_quote_down, Scenario.clock_from.
      simpl. lia.
Defined.

(** C3 does not hold as the specification words it.  With the clock at the
    epoch the failed request stamps the news it has fetched with
    [Date.now() = 0]; the request that follows immediately, within the TTL of
    that write, fetches the news again before it re-attempts the price. *)
Lemma price_failure_epoch_refetch :
  let E := Scenario.env_at_epoch_quote_down in
  let first := get_api_news_symbol E "aapl" initial_world in
  let second := get_api_news_symbol E "aapl" (snd first) in
  code (fst first) = 503 /\
  (exists sc, symbols (cache (snd first)) !! "AAPL" = Some sc /\
              news sc = mkEntry Scenario.articles (Some 0)) /\
  clock E (reads (snd first)) - 0 < CACHE_TTL /\
  new_calls (snd first) (snd second)
  = [CompanyNews "AAPL" (DateDaysAgo 0 7) (CurrentDate 0) (Some "secret");
     Quote "AAPL" (Some "secret")].
Proof.
  split; [vm_compute; reflexivity|].
  split; [eexists; split; vm_compute; reflexivity|].
  split; vm_compute; reflexivity.
Qed.

(** ** Data and timestamp of the cache entries *)

Section EveryEntry.

Context (P : CacheEntry -> Prop).

Lemma every_entry_with_symbol (symbol : string) (c : Cache) :
  P empty_entry -> every_entry P c -> every_entry P (with_symbol symbol c).
Proof.
  intros Hempty [Hg Hs]. split; [by rewrite general_with_symbol|].
  intros s sc Hsc. destruct (decide (s = symbol)) as [->|Hne].
  - rewrite lookup_with_symbol in Hsc. injection Hsc as <-.
    destruct (symbols c !! symbol) as [sc|] eqn:Hlook; simpl; [by eapply Hs|done].
  - rewrite lookup_with_symbol_ne in Hsc by assumption. by eapply Hs.
Qed.

Lemma every_entry_with_news (symbol : string) (entry : CacheEntry) (c : Cache) :
  P entry -> every_entry P c -> every_entry P (with_news symbol entry c).
Proof.
  intros Hentry [Hg Hs]. split; [exact Hg|].
  intros s sc Hsc. destruct (decide (s = symbol)) as [->|Hne].
  - destruct (symbols c !! symbol) as [sc0|] eqn:Hlook.
    + rewrite (lookup_with_news _ _ _ _ Hlook) in Hsc. injection Hsc as <-.
      destruct (Hs _ _ Hlook) as [_ Hprice]. split; [exact Hentry|exact Hprice].
    + unfold with_news in Hsc. simpl in Hsc.
      rewrite lookup_alter_eq, Hlook in Hsc. discriminate.
  - rewrite lookup_with_news_ne in Hsc by assumption. by eapply Hs.
Qed.

Lemma every_entry_with_price (symbol : string) (entry : CacheEntry) (c : Cache) :
  P entry -> every_entry P c -> every_entry P (with_price symbol entry c).
Proof.
  intros Hentry [Hg Hs]. split; [exact Hg|].
  intros s sc Hsc. destruct (decide (s = symbol)) as [->|Hne].
  - destruct (symbols c !! symbol) as [sc0|] eqn:Hlook.
    + rewrite (lookup_with_price _ _ _ _ Hlook) in Hsc. injection Hsc as <-.
      destruct (Hs _ _ Hlook) as [Hnews _]. split; [exact Hnews|exact Hentry].
    + unfold with_price in Hsc. simpl in Hsc.
      rewrite lookup_alter_eq, Hlook in Hsc. discriminate.
  - rewrite lookup_with_price_ne in Hsc by assumption. by eapply Hs.
Qed.

End EveryEntry.

(** Every entry a handler writes carries a timestamp, so the weaker invariant
    survives each request. *)
Lemma unstamped_is_empty_serve (E : Env) (q : Request) (w : World) :
  every_entry unstamped_is_empty (cache w) ->
  every_entry unstamped_is_empty (cache (snd (serve E q w))).
Proof.
  intros Hw. destruct (serve E q w) as [reply w'] eqn:Hrun.
  destruct q as [|param]; simpl in Hrun.
  - destruct (get_api_news_run E w) as (valid & r0 & _ & _ & Hsum).
    rewrite Hsum in Hrun. clear Hsum. destruct valid.
    { injection Hrun as <- <-. exact Hw. }
    destruct (negb (truthy_str (FINNHUB_API_KEY E))).
    { injection Hrun as <- <-. exact Hw. }
    cbv zeta in Hrun. destruct (outcome _) as [e|n];
      injection Hrun as <- <-; [exact Hw|].
    destruct Hw as [_ Hs]. split; [discriminate|exact Hs].
  - symbol_paths E Hrun; cbn beta iota delta [snd cache];
      repeat first
        [ apply every_entry_with_price; [discriminate|]
        | apply every_entry_with_news; [discriminate|]
        | apply every_entry_with_symbol; [done|] ];
      assumption.
Qed.

(** C2, as it holds of the code.  For every entry of the cache (general,
    per-symbol news, per-symbol price), "a missing timestamp implies missing data" holds
    initially, is preserved by every request of both flows, and so holds in
    every state the server reaches. *)
Theorem unstamped_is_empty_invariant (E : Env) :
  every_entry absent_together initial_cache /\
  every_entry unstamped_is_empty initial_cache /\
  (forall q w, every_entry unstamped_is_empty (cache w) ->
               every_entry unstamped_is_empty (cache (snd (serve E q w)))) /\
  (forall qs, every_entry unstamped_is_empty
                (cache (snd (serve_all E qs initial_world)))).
Proof.
  assert (forall P, P empty_entry -> every_entry P initial_cache) as Hinit.
  { intros P HP. split; [exact HP|]. intros s sc Hsc. simpl in Hsc.
    rewrite lookup_empty in Hsc. discriminate. }
  split; [by apply Hinit|]. split; [by apply Hinit|].
  split; [intros q w; apply unstamped_is_empty_serve|].
  intros qs.
  assert (forall w, every_entry unstamped_is_empty (cache w) ->
                    every_entry unstamped_is_empty (cache (snd (serve_all E qs w))))
    as Hall; [|by apply Hall, Hinit].
  induction qs as [|q rest IH]; intros w Hw; simpl; [assumption|].
  pose proof (unstamped_is_empty_serve E q w Hw) as Hstep.
  destruct (serve E q w) as [r w1]. specialize (IH w1 Hstep).
  destruct (serve_all E rest w1) as [rs w2]. exact IH.
Qed.

(** C2 does not hold as the specification words it.  A first request for AAPL
    whose quote carries a current price of 0 leaves the price entry of AAPL
    with a timestamp and with [null] data. *)
Lemma zero_price_stamped_null :
  let w := snd (get_api_news_symbol Scenario.env_zero_price "aapl" initial_world) in
  (exists sc, symbols (cache w) !! "AAPL" = Some sc /\
              data (price sc) = JNull /\
              timestamp (price sc) = Some 1700000000003) /\
  ~ every_entry absent_together (cache w).
Proof.
  assert (symbols (cache (snd (get_api_news_symbol Scenario.env_zero_price "aapl"
                                 initial_world))) !! "AAPL"
          = Some (mkSymbolCache (mkEntry Scenario.articles (Some 1700000000002))
                    (mkEntry JNull (Some 1700000000003)))) as Hlook
      by (vm_compute; reflexivity).
  split.
  - eexists. split; [exact Hlook|]. split; reflexivity.
  - intros [_ Hs]. destruct (Hs _ _ Hlook) as [_ [Hprice _]].
    specialize (Hprice eq_refl). discriminate.
Qed.

(** ** Further properties of the server *)

(** *** Symbols are normalised *)

Lemma upper_idempotent (c : ascii) : upper (upper c) = upper c.
Proof. destruct c as [[] [] [] [] [] [] [] []]; reflexivity. Qed.

Lemma toUpperCase_idempotent (s : string) :
  toUpperCase (toUpperCase s) = toUpperCase s.
Proof.
  induction s as [|c rest IH]; simpl; [reflexivity|].
  by rewrite upper_idempotent, IH.
Qed.


(** *** What a reply can be *)

(** The category under which a route reports its failures. *)
Definition failure_category (q : Request) : string :=
  match q with
  | GetNews => "Failed to fetch news"
  | GetSymbolNews _ => "Failed to fetch news/price"
  end.

(** The [catch] block sends the rate-limit reply or a failure of the route's
    category with a non-empty message and a status that is neither 0 nor 429. *)
Lemma on_error_shape (category : string) (e : Error) :
  on_error category e = rate_limit_error \/
  exists s message,
    on_error category e = mkReply s (error_body category message) /\
    message <> "" /\ s <> 0 /\ s <> 429 /\
    (err_status e = None -> s = 500 /\
       message = if String.eqb (err_message e) "" then "An unexpected error occurred"
                 else err_message e).
Proof.
  assert (message_or_default e <> "") as Hmsg.
  { unfold message_or_default. destruct (String.eqb (err_message e) "") eqn:Hm.
    - discriminate.
    - intros Heq. rewrite Heq in Hm. discriminate. }
  destruct (err_status e) as [s|] eqn:Hs.
  - destruct (Z.eq_dec s 429) as [->|Hne].
    + left. unfold on_error. by rewrite Hs.
    + right. exists (status_or_500 e), (message_or_default e).
      assert (on_error category e
              = mkReply (status_or_500 e) (error_body category (message_or_default e)))
        as Hrun.
      { unfold on_error. rewrite Hs. destruct s as [|x|x]; try reflexivity.
        repeat (destruct x as [x|x|]; try reflexivity). congruence. }
      split; [exact Hrun|]. split; [exact Hmsg|].
      unfold status_or_500. rewrite Hs.
      destruct (s =? 0) eqn:Hz; [by repeat split|].
      apply Z.eqb_neq in Hz. by repeat split.
  - right. exists 500, (message_or_default e). unfold on_error. rewrite Hs.
    repeat split; try done. unfold status_or_500. by rewrite Hs.
Qed.

(** X3.  Whatever the request, the cache and the environment, the reply is one
    of four things: a 200; the configuration error (status 500); the
    rate-limit reply (status 429); or a failure
    [{error: <the route's category>, message: <non-empty>}] whose status is
    none of 0, 200 and 429.  The configuration error is sent only when the
    key is missing. *)
Theorem reply_taxonomy (E : Env) (q : Request) (w : World) :
  (code (fst (serve E q w)) = 200 \/
   fst (serve E q w) = configuration_error \/
   fst (serve E q w) = rate_limit_error \/
   exists s message,
     fst (serve E q w) = mkReply s (error_body (failure_category q) message) /\
     message <> "" /\ s <> 0 /\ s <> 200 /\ s <> 429) /\
  (fst (serve E q w) = configuration_error -> truthy_str (FINNHUB_API_KEY E) = false).
Proof.
  assert (forall e, code (on_error (failure_category q) e) <> 200 ->
            on_error (failure_category q) e = rate_limit_error \/
            exists s message,
              on_error (failure_category q) e
              = mkReply s (error_body (failure_category q) message) /\
              message <> "" /\ s <> 0 /\ s <> 200 /\ s <> 429) as Hfailure.
  { intros e Hcode.
    destruct (on_error_shape (failure_category q) e)
      as [Hlimit|(s & message & Hrun & Hm & Hz & Hl & _)]; [by left|].
    right. exists s, message. rewrite Hrun in Hcode |- *. by repeat split. }
  assert (forall e, on_error (failure_category q) e <> configuration_error) as Hnot.
  { intros e. destruct (on_error_shape (failure_category q) e)
      as [->|(s & message & -> & _)]; [discriminate|].
    destruct q; discriminate. }
  destruct (serve E q w) as [reply w'] eqn:Hrun. simpl.
  destruct q as [|param]; simpl in Hrun, Hfailure, Hnot.
  - destruct (get_api_news_run E w) as (valid & r0 & _ & _ & Hsum).
    rewrite Hsum in Hrun. clear Hsum. destruct valid.
    { injection Hrun as <- <-. split; [by left|discriminate]. }
    destruct (negb (truthy_str (FINNHUB_API_KEY E))) eqn:Hkey.
    { injection Hrun as <- <-. apply negb_true_iff in Hkey. split; [by right; left|done]. }
    cbv zeta in Hrun. destruct (outcome _) as [e|n] eqn:Hout;
      injection Hrun as <- <-.
    + split; [|intros Hc; by destruct (Hnot e)].
      right. right. apply Hfailure. by eapply outcome_error_code.
    + split; [by left|discriminate].
  - symbol_paths E Hrun.
    all: try (split; [by left|discriminate]).
    all: try (apply negb_true_iff in Hkey; split; [by right; left|done]).
    all: split; [|intros Hc; by edestruct Hnot].
    all: right; right; apply Hfailure.
    all: first [ eapply outcome_error_code; eassumption
               | eapply current_price_error_code; eassumption ].
Qed.

(** The body of a successful symbol reply. *)
Lemma symbol_success_body (E : Env) (param : string) (w : World) :
  code (fst (get_api_news_symbol E param w)) = 200 ->
  exists p items source,
    body (fst (get_api_news_symbol E param w))
    = JObj [("symbol", JStr (toUpperCase param)); ("price", p);
            ("news", JArr items); ("source", JStr source)] /\
    (source = "api" \/ source = "cache").
Proof.
  destruct (get_api_news_symbol E param w) as [reply w'] eqn:Hrun. simpl.
  intros Hcode.
  symbol_paths E Hrun;
    try (exfalso; revert Hcode; first
           [ discriminate
           | eapply outcome_error_code; eassumption
           | eapply current_price_error_code; eassumption ]).
  all: unfold symbol_response; simpl.
  all: match goal with
       | |- context [isArray ?n] => destruct n; simpl
       end.
  all: do 3 eexists; split; [reflexivity|]; auto.
Qed.

(** *** Letter case

    [toUpperCase] is [String.prototype.toUpperCase] on strings of ASCII
    characters, where it maps [a]..[z] to [A]..[Z] and nothing else; the
    Unicode case mapping is not part of the model.  What is stated about the
    letter case of a symbol is therefore stated of ASCII parameters. *)

Fixpoint is_ascii (s : string) : bool :=
  match s with
  | EmptyString => true
  | String c rest => (nat_of_ascii c <? 128)%nat && is_ascii rest
  end.

(** One of [a]..[z]. *)
Definition is_lower (c : ascii) : bool :=
  ((97 <=? nat_of_ascii c) && (nat_of_ascii c <=? 122))%nat.

(** The same character, or the lower-case and the upper-case form of one
    letter: [a]..[z] are 32 above [A]..[Z]. *)
Definition same_letter (a b : ascii) : bool :=
  ((nat_of_ascii a =? nat_of_ascii b)
   || (is_lower a && (nat_of_ascii b =? nat_of_ascii a - 32))
   || (is_lower b && (nat_of_ascii a =? nat_of_ascii b - 32)))%nat.

(** Two strings that differ at most in the case of their letters. *)
Fixpoint same_ignoring_case (p q : string) : bool :=
  match p, q with
  | EmptyString, EmptyString => true
  | String a p', String b q' => same_letter a b && same_ignoring_case p' q'
  | _, _ => false
  end.

(** A string without lower-case letters. *)
Fixpoint no_lower (s : string) : bool :=
  match s with
  | EmptyString => true
  | String c rest => negb (is_lower c) && no_lower rest
  end.

Lemma same_letter_upper (a b : ascii) : same_letter a b = true -> upper a = upper b.
Proof.
  unfold same_letter, is_lower, upper.
  rewrite !orb_true_iff, !andb_true_iff, !Nat.eqb_eq, !Nat.leb_le.
  pose proof (ascii_nat_embedding a) as Ha.
  pose proof (ascii_nat_embedding b) as Hb.
  revert Ha Hb. generalize (nat_of_ascii a) (nat_of_ascii b).
  intros m n <- <- H.
  destruct (Nat.leb_spec 97 m), (Nat.leb_spec m 122),
    (Nat.leb_spec 97 n), (Nat.leb_spec n 122); simpl; f_equal; lia.
Qed.

Lemma toUpperCase_same (p q : string) :
  same_ignoring_case p q = true -> toUpperCase p = toUpperCase q.
Proof.
  revert q. induction p as [|a p IH]; intros [|b q]; simpl; try discriminate.
  - reflexivity.
  - intros [Hab Hpq]%andb_true_iff.
    by rewrite (same_letter_upper a b Hab), (IH q Hpq).
Qed.

Lemma upper_same_letter (c : ascii) : same_letter c (upper c) = true.
Proof. destruct c as [[] [] [] [] [] [] [] []]; reflexivity. Qed.

Lemma upper_not_lower (c : ascii) : is_lower (upper c) = false.
Proof. destruct c as [[] [] [] [] [] [] [] []]; reflexivity. Qed.

Lemma toUpperCase_ignoring_case (s : string) :
  same_ignoring_case s (toUpperCase s) = true.
Proof.
  induction s as [|c rest IH]; simpl; [reflexivity|].
  by rewrite upper_same_letter, IH.
Qed.

Lemma toUpperCase_no_lower (s : string) : no_lower (toUpperCase s) = true.
Proof.
  induction s as [|c rest IH]; simpl; [reflexivity|].
  by rewrite upper_not_lower, IH.
Qed.

(** The request leaves a record under the upper-case form of its parameter. *)
Lemma record_after_request (E : Env) (param : string) (w : World) :
  is_Some (symbols (cache (snd (get_api_news_symbol E param w))) !! toUpperCase param).
Proof.
  destruct (get_api_news_symbol E param w) as [reply w'] eqn:Hrun.
  symbol_paths E Hrun; cbn beta iota delta [snd cache];
    repeat first
      [ erewrite lookup_with_price by eassumption
      | erewrite lookup_with_news by eassumption ];
    rewrite ?Hsc; eauto.
Qed.

(** X1.  The symbol route is insensitive to the letter case of its parameter.
    Two ASCII parameters that differ only in the case of their letters get
    the same reply and leave the same world.  The record they use is kept
    under the key that differs from the parameter only in the case of its
    letters and has no lower-case letter; that key is the [symbol] of a
    successful reply. *)
Theorem symbol_case_insensitive (E : Env) (p q : string) (w : World) :
  is_ascii p = true ->
  is_ascii q = true ->
  same_ignoring_case p q = true ->
  get_api_news_symbol E p w = get_api_news_symbol E q w /\
  exists key,
    same_ignoring_case p key = true /\ no_lower key = true /\
    is_Some (symbols (cache (snd (get_api_news_symbol E p w))) !! key) /\
    (code (fst (get_api_news_symbol E p w)) = 200 ->
     reply_field (fst (get_api_news_symbol E p w)) "symbol" = Some (JStr key)).
Proof.
  intros _ _ Hpq. split.
  - unfold get_api_news_symbol. by rewrite (toUpperCase_same p q Hpq).
  - exists (toUpperCase p).
    split; [apply toUpperCase_ignoring_case|].
    split; [apply toUpperCase_no_lower|].
    split; [apply record_after_request|].
    intros Hcode.
    destruct (symbol_success_body E p w Hcode) as (price & items & source & Hbody & _).
    unfold reply_field. by rewrite Hbody.
Qed.

(** An instance: [aapl] and [Aapl] are served from the record [AAPL]. *)
Lemma symbol_case_insensitive_witness :
  get_api_news_symbol Scenario.env_priced "aapl" initial_world
  = get_api_news_symbol Scenario.env_priced "Aapl" initial_world /\
  exists key,
    same_ignoring_case "aapl" key = true /\ no_lower key = true /\
    is_Some (symbols (cache (snd (get_api_news_symbol Scenario.env_priced "aapl"
                                    initial_world))) !! key) /\
    (code (fst (get_api_news_symbol Scenario.env_priced "aapl" initial_world)) = 200 ->
     reply_field (fst (get_api_news_symbol Scenario.env_priced "aapl" initial_world))
       "symbol" = Some (JStr key)).
Proof.
  apply (symbol_case_insensitive Scenario.env_priced "aapl" "Aapl" initial_world);
    reflexivity.
Defined.

(** X2.  A successful symbol reply is built from the record the request
    leaves in the cache under the upper-cased (ASCII) parameter.  It has
    exactly the four fields [symbol], [price], [news] and [source], in this
    order: [symbol] is the key of the record; [price] is the data of its price
    entry; [news] is the data of its news entry if that is an array and the
    empty array otherwise (the entry itself keeps the payload that is not an
    array); [source] is "api" or "cache". *)
Theorem symbol_reply_shape (E : Env) (param : string) (w : World) :
  is_ascii param = true ->
  code (fst (get_api_news_symbol E param w)) = 200 ->
  exists sc source,
    symbols (cache (snd (get_api_news_symbol E param w))) !! toUpperCase param
    = Some sc /\
    body (fst (get_api_news_symbol E param w))
    = JObj [("symbol", JStr (toUpperCase param));
            ("price", data (price sc));
            ("news", if isArray (data (news sc)) then data (news sc) else JArr []);
            ("source", JStr source)] /\
    (source = "api" \/ source = "cache").
Proof.
  intros _.
  destruct (get_api_news_symbol E param w) as [reply w'] eqn:Hrun. simpl.
  intros Hcode.
  symbol_paths E Hrun;
    try (exfalso; revert Hcode; first
           [ discriminate
           | eapply outcome_error_code; eassumption
           | eapply current_price_error_code; eassumption ]).
  all: unfold symbol_response; cbn beta iota delta [cache body].
  all: eexists; eexists.
  all: (split;
        [ first [ eapply lookup_with_price; eassumption | eassumption ] |]).
  all: cbn beta iota delta [news price data]; subst sc.
  all: split; [reflexivity|]; auto.
Qed.

(** An instance: the company-news payload is an object, not an array; the
    record keeps it and the reply has the empty array. *)
Lemma symbol_reply_shape_witness :
  let E := mkEnv (Some "secret") (Scenario.clock_from 1700000000000)
             (fun _ _ => Scenario.http_ok (JObj [("c", JNum 12.5%float)])) in
  body (fst (get_api_news_symbol E "msft" initial_world))
  = JObj [("symbol", JStr "MSFT"); ("price", JNum 12.5%float);
          ("news", JArr []); ("source", JStr "api")] /\
  exists sc source,
    symbols (cache (snd (get_api_news_symbol E "msft" initial_world)))
      !! toUpperCase "msft" = Some sc /\
    body (fst (get_api_news_symbol E "msft" initial_world))
    = JObj [("symbol", JStr (toUpperCase "msft"));
            ("price", data (price sc));
            ("news", if isArray (data (news sc)) then data (news sc) else JArr []);
            ("source", JStr source)] /\
    (source = "api" \/ source = "cache").
Proof.
  split; [vm_compute; reflexivity|].
  apply (symbol_reply_shape
           (mkEnv (Some "secret") (Scenario.clock_from 1700000000000)
              (fun _ _ => Scenario.http_ok (JObj [("c", JNum 12.5%float)])))
           "msft" initial_world).
  - reflexivity.
  - vm_compute. reflexivity.
Defined.

(** *** What a failed request leaves behind *)

(** X4.  A request that does not reply 200 has stored nothing of what it
    failed to obtain: on the general route the whole cache is as it was; on
    the symbol route the general entry and the price entry of the symbol are
    as they were (the price entry being the empty one if the record has just
    been created), so a stale or missing entry is never overwritten by a
    failure. *)
Theorem failure_stores_nothing (E : Env) (q : Request) (w : World) :
  code (fst (serve E q w)) <> 200 ->
  match q with
  | GetNews => cache (snd (serve E q w)) = cache w
  | GetSymbolNews param =>
      general (cache (snd (serve E q w))) = general (cache w) /\
      exists sc,
        symbols (cache (snd (serve E q w))) !! toUpperCase param = Some sc /\
        price sc = price (default (mkSymbolCache empty_entry empty_entry)
                            (symbols (cache w) !! toUpperCase param))
  end.
Proof.
  destruct (serve E q w) as [reply w'] eqn:Hrun. simpl. intros Hcode.
  destruct q as [|param]; simpl in Hrun.
  - destruct (get_api_news_run E w) as (valid & r0 & _ & _ & Hsum).
    rewrite Hsum in Hrun. clear Hsum. destruct valid.
    { by injection Hrun as <- <-. }
    destruct (negb (truthy_str (FINNHUB_API_KEY E))).
    { by injection Hrun as <- <-. }
    cbv zeta in Hrun. destruct (outcome _) as [e|n];
      injection Hrun as <- <-; [reflexivity|by destruct Hcode].
  - symbol_paths E Hrun; try (by destruct Hcode); subst sc;
      cbn beta iota delta [cache];
      (split; [by rewrite ?general_with_news, ?general_with_symbol|]);
      eexists; (split; [eassumption|reflexivity]).
Qed.

(** An instance: the quote endpoint is down, the price entry of AAPL stays
    empty. *)
Lemma failure_stores_nothing_witness :
  let run := serve Scenario.env_quote_down (GetSymbolNews "aapl") initial_world in
  code (fst run) = 503 /\
  exists sc, symbols (cache (snd run)) !! "AAPL" = Some sc /\
             price sc = empty_entry.
Proof.
  split; [vm_compute; reflexivity|].
  destruct (failure_stores_nothing Scenario.env_quote_down (GetSymbolNews "aapl")
              initial_world) as (_ & sc & Hsc & Hprice).
  - vm_compute. discriminate.
  - exists sc. split; [exact Hsc|exact Hprice].
Defined.

(** *** The key and the upstream *)




(** *** The records of the cache *)

(** A request never removes a record, and a symbol request leaves one for its
    symbol whatever its outcome. *)
Lemma records_kept_serve (E : Env) (q : Request) (w : World) (s : string) :
  (is_Some (symbols (cache w) !! s) \/
   exists param, q = GetSymbolNews param /\ s = toUpperCase param) ->
  is_Some (symbols (cache (snd (serve E q w))) !! s).
Proof.
  intros Hs.
  assert (forall symbol, is_Some (symbols (cache w) !! s) \/ s = symbol ->
                         is_Some (symbols (with_symbol symbol (cache w)) !! s))
    as Hinit.
  { intros symbol [Hold| ->].
    - destruct (decide (s = symbol)) as [->|Hne].
      + rewrite lookup_with_symbol. eauto.
      + by rewrite lookup_with_symbol_ne.
    - rewrite lookup_with_symbol. eauto. }
  assert (forall symbol entry c,
            is_Some (symbols c !! s) ->
            is_Some (symbols (with_news symbol entry c) !! s) /\
            is_Some (symbols (with_price symbol entry c) !! s)) as Hset.
  { intros symbol entry c [sc Hsc]. destruct (decide (s = symbol)) as [->|Hne].
    - rewrite (lookup_with_news _ _ _ _ Hsc), (lookup_with_price _ _ _ _ Hsc). eauto.
    - rewrite lookup_with_news_ne, lookup_with_price_ne by assumption.
      rewrite Hsc. eauto. }
  destruct (serve E q w) as [reply w'] eqn:Hrun. simpl.
  destruct q as [|param]; simpl in Hrun.
  - destruct Hs as [Hs|(param & Hq & _)]; [|discriminate].
    destruct (get_api_news_run E w) as (valid & r0 & _ & _ & Hsum).
    rewrite Hsum in Hrun. clear Hsum. destruct valid.
    { by injection Hrun as <- <-. }
    destruct (negb (truthy_str (FINNHUB_API_KEY E))).
    { by injection Hrun as <- <-. }
    cbv zeta in Hrun. destruct (outcome _) as [e|n];
      by injection Hrun as <- <-.
  - assert (is_Some (symbols (with_symbol (toUpperCase param) (cache w)) !! s))
      as Hrecord.
    { apply Hinit. destruct Hs as [Hs|(param' & [= <-] & ->)]; [by left|by right]. }
    symbol_paths E Hrun; cbn beta iota delta [cache];
      repeat first [ apply Hset | assumption ].
Qed.

(** X6.  Records are created on demand and never removed: after any sequence
    of requests, every symbol that had a record before still has one, and so
    has the upper-case form of every symbol that was requested, whatever the
    outcome of the request (a missing key or an upstream failure included). *)
Theorem records_only_grow (E : Env) (qs : list Request) (w : World) (s : string) :
  (is_Some (symbols (cache w) !! s) \/
   exists param, In (GetSymbolNews param) qs /\ s = toUpperCase param) ->
  is_Some (symbols (cache (snd (serve_all E qs w))) !! s).
Proof.
  revert w. induction qs as [|q rest IH]; intros w Hs; simpl.
  - destruct Hs as [Hs|(param & [] & _)]. exact Hs.
  - pose proof (records_kept_serve E q w s) as Hstep.
    destruct (serve E q w) as [r w1]. simpl in Hstep.
    specialize (IH w1).
    destruct (serve_all E rest w1) as [rs w2]. simpl in IH |- *.
    apply IH. destruct Hs as [Hs|(param & [Hq|Hin] & Hp)].
    + left. apply Hstep. by left.
    + left. apply Hstep. right. eauto.
    + right. eauto.
Qed.

(** An instance: requests without a key still create the records. *)
Lemma records_only_grow_witness :
  let qs := [GetSymbolNews "tsla"; GetNews; GetSymbolNews "nvda"] in
  fst (serve_all Scenario.env_no_key qs Scenario.world_aapl_cached)
  = [configuration_error; configuration_error; configuration_error] /\
  is_Some (symbols (cache (snd (serve_all Scenario.env_no_key qs
                                  Scenario.world_aapl_cached))) !! "AAPL") /\
  is_Some (symbols (cache (snd (serve_all Scenario.env_no_key qs
                                  Scenario.world_aapl_cached))) !! "NVDA").
Proof.
  split; [vm_compute; reflexivity|]. split.
  - apply (records_only_grow Scenario.env_no_key
             [GetSymbolNews "tsla"; GetNews; GetSymbolNews "nvda"]
             Scenario.world_aapl_cached "AAPL").
    left. vm_compute. eauto.
  - apply (records_only_grow Scenario.env_no_key
             [GetSymbolNews "tsla"; GetNews; GetSymbolNews "nvda"]
             Scenario.world_aapl_cached "NVDA").
    right. exists "nvda". split; [simpl; tauto|reflexivity].
Defined.

(** *** Repeating a symbol request *)

(** X7.  A symbol request that finds both entries of the symbol valid (the
    news entry when it looks at it, the price entry at the following clock
    reading) replies 200 with the cached price, the cached news (as an array)
    and [source] "cache", calls no upstream and leaves the cache as it is.
    In particular this is what a request gets that follows a successful one
    within the validity of the entries it wrote or used. *)
Theorem symbol_cache_hit (E : Env) (param : string) (w : World) (sc : SymbolCache) :
  truthy_str (FINNHUB_API_KEY E) = true ->
  symbols (cache w) !! toUpperCase param = Some sc ->
  fst (isCacheValid E (Some (news sc)) w) = inr true ->
  fst (isCacheValid E (Some (price sc)) (tick w)) = inr true ->
  exists w',
    get_api_news_symbol E param w
    = (mkReply 200
         (symbol_response (toUpperCase param) (data (price sc)) (data (news sc))
            "cache"),
       w') /\
    cache w' = cache w /\ calls w' = calls w.
Proof.
  intros Hkey Hsc Hnews Hprice.
  destruct (get_api_news_symbol E param w) as [reply w'] eqn:Hrun.
  exists w'.
  symbol_paths E Hrun;
    [rewrite Hkey in Hkey0; discriminate|..];
    rewrite Hsc in Hsc_def; simpl in Hsc_def; subst sc0;
    repeat match goal with
      | H : isCacheValid E ?ce ?w0 = (inr ?b, _) |- _ =>
          let H' := fresh "Hfst" in
          assert (fst (isCacheValid E ce w0) = inr b) as H' by (by rewrite H);
          clear H
      end;
    try subst r0;
    repeat match goal with
      | H : fst (isCacheValid ?E ?ce (mkWorld ?c (reads ?w) ?l)) = _ |- _ =>
          rewrite (isCacheValid_reads E ce w (mkWorld c (reads w) l) eq_refl) in H
      | H : fst (isCacheValid ?E ?ce (mkWorld ?c (S (reads ?w)) ?l)) = _ |- _ =>
          rewrite (isCacheValid_reads E ce (tick w) (mkWorld c (S (reads w)) l)
                     eq_refl) in H
      end;
    try congruence.
  split; [reflexivity|]. split; [|reflexivity].
  simpl. unfold with_symbol. by rewrite Hsc.
Qed.

(** An instance, obtained by repeating a first request for AAPL one
    millisecond later. *)
Lemma symbol_cache_hit_witness :
  let first := get_api_news_symbol Scenario.env_priced "aapl" initial_world in
  let second := get_api_news_symbol Scenario.env_priced "aapl" (snd first) in
  reply_field (fst first) "source" = Some (JStr "api") /\
  fst second
  = mkReply 200
      (symbol_response "AAPL" (JNum 189.25%float) Scenario.articles "cache") /\
  calls (snd second) = calls (snd first).
Proof.
  split; [vm_compute; reflexivity|].
  destruct (symbol_cache_hit Scenario.env_priced "aapl"
              (snd (get_api_news_symbol Scenario.env_priced "aapl" initial_world))
              (mkSymbolCache (mkEntry Scenario.articles (Some 1700000000002))
                 (mkEntry (JNum 189.25%float) (Some 1700000000003))))
    as (w' & Hrun & _ & Hcalls); try (vm_compute; reflexivity).
  cbv zeta. rewrite Hrun. split; [reflexivity|exact Hcalls].
Defined.

(** *** The URLs of the news *)


(** A zone one hour ahead of UTC that was two hours ahead until the time
    value [change] (the end of daylight saving), a local time being read
    with the offset in force before the change when it occurs twice. *)
Definition zone_after_dst (change : Z) : TimeZone :=
  mkTimeZone (fun t => if t <? change then 7200000 else 3600000)
             (fun t => if t <? change + 7200000 then 7200000 else 3600000).





(** Across the end of daylight saving the window is not 7 days: half an
    hour into a UTC day, six days after the clocks went back, [from] is 8
    days before [to]. *)
Example company_news_window_across_dst :
  let tz := zone_after_dst 1698541200000 in
  let now := 1699057800000 in
  isoDate tz (CurrentDate now) = "2023-11-04" /\
  isoDate tz (DateDaysAgo now 7) = "2023-10-27" /\
  isoDay tz (CurrentDate now) - isoDay tz (DateDaysAgo now 7) = 8.
Proof. vm_compute. repeat split. Qed.

(** *** A truthy price *)

(** X9.  When a symbol request fetches the quote and the current-price field
    [c] of the answer is truthy, that value is served as [price] and stored in
    the price entry as it is, whatever its type (nothing checks that it is a
    number). *)
Theorem truthy_price_is_kept (E : Env) (param : string) (w : World)
    (k : nat) (r : Response) (fields : list (string * value)) (c : value) :
  (length (calls w) <= k)%nat ->
  calls (snd (get_api_news_symbol E param w)) !! k
  = Some (Quote (toUpperCase param) (FINNHUB_API_KEY E)) ->
  upstream E k (Quote (toUpperCase param) (FINNHUB_API_KEY E)) = Resolved r ->
  ok r = true ->
  json r = inr (JObj fields) ->
  field "c" fields = Some c ->
  truthy c = true ->
  code (fst (get_api_news_symbol E param w)) = 200 /\
  reply_field (fst (get_api_news_symbol E param w)) "price" = Some c /\
  exists sc t,
    symbols (cache (snd (get_api_news_symbol E param w))) !! toUpperCase param
    = Some sc /\
    price sc = mkEntry c (Some t).
Proof.
  destruct (get_api_news_symbol E param w) as [reply w'] eqn:Hrun. simpl.
  intros Hk Hlook Hup Hok Hjson Hc Htruthy.
  pose proof (outcome_resolved _ r _ Hup Hok Hjson) as Hout.
  assert (current_price (JObj fields) = inr c) as Hcur
      by (simpl; by rewrite Hc, Htruthy).
  symbol_paths E Hrun; simpl in Hlook; locate_call;
    try (subst; discriminate);
    try match goal with
        | H1 : outcome ?x = inr _, H2 : outcome ?x = _ |- _ =>
            rewrite H1 in H2; simplify_eq
        end.
  all: rewrite Hcur in *; simplify_eq.
  all: split; [reflexivity|]; split; [reflexivity|]; do 2 eexists;
    cbn beta iota delta [cache].
  all: split;
    [eapply lookup_with_price;
     first [eassumption|eapply lookup_with_news; eassumption]
    |reflexivity].
Qed.

(** An instance: a price of 189.25. *)
Lemma truthy_price_is_kept_witness :
  let run := get_api_news_symbol Scenario.env_priced "aapl" initial_world in
  code (fst run) = 200 /\ reply_field (fst run) "price" = Some (JNum 189.25%float) /\
  exists sc t, symbols (cache (snd run)) !! "AAPL" = Some sc /\
               price sc = mkEntry (JNum 189.25%float) (Some t).
Proof.
  refine (truthy_price_is_kept Scenario.env_priced "aapl" initial_world 1%nat
            (mkResponse 200 "OK"
               (inr (JObj [("c", JNum 189.25%float); ("h", JNum 190.5%float)])))
            [("c", JNum 189.25%float); ("h", JNum 190.5%float)]
            (JNum 189.25%float) _ _ _ _ _ _ _);
    try (vm_compute; reflexivity).
  simpl. lia.
Defined.

(** *** Failures that carry no status *)

(** X10.  When the upstream cannot be reached ([fetch] rejects) or answers a
    success status with a body that is not JSON, the request is answered with
    status 500, the category of its route, and the message of the error, or
    "An unexpected error occurred" if that message is empty. *)
Theorem failure_without_status (E : Env) (q : Request) (w : World)
    (k : nat) (url : UpstreamCall) (message : string) :
  (length (calls w) <= k)%nat ->
  calls (snd (serve E q w)) !! k = Some url ->
  (upstream E k url = Rejected message \/
   exists r, upstream E k url = Resolved r /\ ok r = true /\ json r = inl message) ->
  fst (serve E q w)
  = mkReply 500
      (error_body (failure_category q)
         (if String.eqb message "" then "An unexpected error occurred" else message)).
Proof.
  intros Hk Hlook Hup.
  assert (outcome (upstream E k url) = inl (mkError None message)) as Hout.
  { destruct Hup as [->|(r & -> & Hok & Hjson)]; [reflexivity|].
    simpl. unfold check_response, response_json. by rewrite Hok, Hjson. }
  clear Hup.
  destruct (serve E q w) as [reply w'] eqn:Hrun. simpl in Hlook |- *.
  destruct q as [|param]; simpl in Hrun.
  - destruct (get_api_news_run E w) as (valid & r0 & _ & _ & Hsum).
    rewrite Hsum in Hrun. clear Hsum. destruct valid.
    { injection Hrun as <- <-. simpl in Hlook. locate_call. }
    destruct (negb (truthy_str (FINNHUB_API_KEY E))).
    { injection Hrun as <- <-. simpl in Hlook. locate_call. }
    cbv zeta in Hrun. destruct (outcome _) as [e|n] eqn:Hout';
      injection Hrun as <- <-; simpl in Hlook; locate_call; subst url;
      rewrite Hout in Hout'; [by injection Hout' as <-|discriminate].
  - symbol_paths E Hrun; simpl in Hlook; locate_call; subst url;
      repeat match goal with
        | H1 : outcome ?x = inl (mkError None message), H2 : outcome ?x = _ |- _ =>
            rewrite H1 in H2; simplify_eq
        end;
      reflexivity.
Qed.

(** An instance: the network is down. *)
Lemma failure_without_status_witness :
  let E := mkEnv (Some "secret") (Scenario.clock_from 1700000000000)
             (fun _ _ => Rejected "") in
  fst (serve E GetNews initial_world)
  = mkReply 500 (error_body "Failed to fetch news" "An unexpected error occurred").
Proof.
  refine (failure_without_status
            (mkEnv (Some "secret") (Scenario.clock_from 1700000000000)
               (fun _ _ => Rejected ""))
            GetNews initial_world 0%nat (GeneralNews (Some "secret")) "" _ _ _).
  - simpl. lia.
  - vm_compute. reflexivity.
  - left. reflexivity.
Defined.

(** *** Refreshing the general news *)

(** X11.  A general-news request that finds its entry not valid (never
    fetched, or expired) and a key configured calls the general-news endpoint
    exactly once; if the call succeeds, the payload is replied as it is,
    without any normalisation, and replaces the general entry, stamped with
    a clock reading of this request, while the records of the symbols stay
    as they are. *)
Theorem general_news_refresh (E : Env) (w : World) (v : value) :
  truthy_str (FINNHUB_API_KEY E) = true ->
  fst (isCacheValid E (Some (general (cache w))) w) = inr false ->
  outcome (upstream E (length (calls w)) (GeneralNews (FINNHUB_API_KEY E))) = inr v ->
  fst (get_api_news E w) = mkReply 200 v /\
  new_calls w (snd (get_api_news E w)) = [GeneralNews (FINNHUB_API_KEY E)] /\
  symbols (cache (snd (get_api_news E w))) = symbols (cache w) /\
  exists i, (reads w <= i < reads (snd (get_api_news E w)))%nat /\
            general (cache (snd (get_api_news E w))) = mkEntry v (Some (clock E i)).
Proof.
  intros Hkey Hinvalid Hout.
  destruct (get_api_news_run E w) as (valid & r0 & Hvalid & Hr0 & Hsum).
  rewrite Hsum. clear Hsum. rewrite Hvalid in Hinvalid. simpl in Hinvalid.
  injection Hinvalid as ->. rewrite Hkey. cbv zeta. rewrite Hout. simpl.
  split; [reflexivity|]. split; [apply new_calls_app|]. split; [reflexivity|].
  exists r0. split; [lia|reflexivity].
Qed.

(** An instance: the upstream answers an object instead of a list. *)
Lemma general_news_refresh_witness :
  let E := mkEnv (Some "secret") (Scenario.clock_from 1700000000000)
             (fun _ _ => Scenario.http_ok (JObj [("error", JStr "maintenance")])) in
  fst (get_api_news E initial_world)
  = mkReply 200 (JObj [("error", JStr "maintenance")]) /\
  new_calls initial_world (snd (get_api_news E initial_world))
  = [GeneralNews (Some "secret")].
Proof.
  destruct (general_news_refresh
              (mkEnv (Some "secret") (Scenario.clock_from 1700000000000)
                 (fun _ _ => Scenario.http_ok (JObj [("error", JStr "maintenance")])))
              initial_world (JObj [("error", JStr "maintenance")]))
    as (Hreply & Hcalls & _); try reflexivity.
  split; [exact Hreply|exact Hcalls].
Defined.

(** *** Upstream traffic under caching *)

(** Once the general entry carries a timestamp of the current window, general
    requests are served from it. *)
Lemma general_news_warm (E : Env) (t0 : Z) (n : nat) :
  0 < t0 ->
  (forall i, t0 <= clock E i < t0 + CACHE_TTL) ->
  forall w t,
    timestamp (general (cache w)) = Some t -> t0 <= t ->
    calls (snd (serve_all E (repeat GetNews n) w)) = calls w.
Proof.
  intros Hpos Hwindow. induction n as [|n IH]; intros w t Ht Hle; [reflexivity|].
  simpl.
  assert (fst (isCacheValid E (Some (general (cache w))) w) = inr true) as Hvalid.
  { unfold isCacheValid. rewrite Ht. destruct (t =? 0) eqn:Hz; [lia|].
    simpl. f_equal. apply Z.ltb_lt. specialize (Hwindow (reads w)). lia. }
  rewrite (general_hit_run E w Hvalid).
  specialize (IH (tick w) t Ht Hle).
  destruct (serve_all E (repeat GetNews n) (tick w)) as [rs w2]. exact IH.
Qed.

(** X12.  Caching bounds the upstream traffic: while all clock readings lie
    in one window shorter than the TTL (after the epoch) and the general-news
    endpoint answers successfully, any number of consecutive general-news
    requests makes at most one upstream call. *)
Theorem one_fetch_per_window (E : Env) (t0 : Z) (n : nat) (w : World) :
  0 < t0 ->
  (forall i, t0 <= clock E i < t0 + CACHE_TTL) ->
  (forall k, exists v,
      outcome (upstream E k (GeneralNews (FINNHUB_API_KEY E))) = inr v) ->
  (length (new_calls w (snd (serve_all E (repeat GetNews n) w))) <= 1)%nat.
Proof.
  intros Hpos Hwindow Hup. revert w. induction n as [|n IH]; intros w.
  { unfold new_calls. simpl. rewrite drop_all. simpl. lia. }
  simpl.
  destruct (get_api_news_run E w) as (valid & r0 & _ & _ & Hsum).
  rewrite Hsum. clear Hsum.
  assert (forall c r, (length (new_calls w
                         (snd (serve_all E (repeat GetNews n)
                                 (mkWorld c r (calls w))))) <= 1)%nat) as Hsame.
  { intros c r. apply (IH (mkWorld c r (calls w))). }
  destruct valid.
  { specialize (Hsame (cache w) r0).
    destruct (serve_all E (repeat GetNews n) _) as [rs w2]. exact Hsame. }
  destruct (negb (truthy_str (FINNHUB_API_KEY E))).
  { specialize (Hsame (cache w) r0).
    destruct (serve_all E (repeat GetNews n) _) as [rs w2]. exact Hsame. }
  cbv zeta. destruct (Hup (length (calls w))) as [v Hv]. rewrite Hv.
  pose proof (general_news_warm E t0 n Hpos Hwindow
                (mkWorld (mkCache (mkEntry v (Some (clock E r0))) (symbols (cache w)))
                   (S r0) (calls w ++ [GeneralNews (FINNHUB_API_KEY E)]))
                (clock E r0) eq_refl (proj1 (Hwindow r0))) as Hwarm.
  destruct (serve_all E (repeat GetNews n) _) as [rs w2]. simpl in Hwarm |- *.
  unfold new_calls. rewrite Hwarm, drop_app_length. simpl. lia.
Qed.

(** A clock that advances by one millisecond per reading for a minute and
    then stands still. *)
Definition clock_within_a_minute (t0 : Z) : nat -> Z :=
  fun n => t0 + Z.min (Z.of_nat n) 59999.

(** An instance: five requests in five milliseconds. *)
Lemma one_fetch_per_window_witness :
  let E := mkEnv (Some "secret") (clock_within_a_minute 1700000000000)
             (Scenario.answering (JNum 189.25%float)) in
  new_calls initial_world (snd (serve_all E (repeat GetNews 5) initial_world))
  = [GeneralNews (Some "secret")] /\
  (length (new_calls initial_world
             (snd (serve_all E (repeat GetNews 5) initial_world))) <= 1)%nat.
Proof.
  split; [vm_compute; reflexivity|].
  apply (one_fetch_per_window
           (mkEnv (Some "secret") (clock_within_a_minute 1700000000000)
              (Scenario.answering (JNum 189.25%float)))
           1700000000000 5 initial_world).
  - lia.
  - intros i. unfold clock_within_a_minute, CACHE_TTL. simpl clock. lia.
  - intros k. eexists. reflexivity.
Defined.

(** * The client ([App.jsx])

    The component keeps five pieces of state and a key of [localStorage]; its
    handlers are modelled as functions on them.

    A run of [fetchNews] updates the state at two moments: when it is called
    ([fetchNews_begin], the three updates before [await fetch]) and when the
    fetch has settled ([fetchNews_end], the updates of the [try], [catch] and
    [finally] blocks, which run without interruption once the body has been
    read).  The updates of the second moment apply to the state the component
    has then: other runs may have begun or ended in between, since the effect
    starts a run on mount and another one whenever the selection changes, and
    nothing cancels a run in flight.  The ticker a run works with is the
    [selectedTicker] of the render that started it.  [fetchNews] is the run
    that nothing overlaps. *)

Module Client.

Definition API_BASE_URL : string := "http://localhost:4000/api/news".

Definition TICKERS : list string := ["AAPL"; "MSFT"; "AMZN"; "GOOG"; "TSLA"; "NVDA"].

Definition STORAGE_KEY : string := "lastSelectedTicker".

(** The state of the component.  [error] is [null] ([None]) or a message;
    [stockPrice] is a value, [null] included, or [undefined] ([None]);
    [articles] always holds an array, given here by its items. *)
Record State : Type := mkState {
  articles : list value;
  loading : bool;
  error : option string;
  selectedTicker : string;
  stockPrice : option value
}.

(** The initial values of the five [useState] calls. *)
Definition initial : State := mkState [] true None "" (Some JNull).

Definition setArticles (a : list value) (s : State) : State :=
  mkState a (loading s) (error s) (selectedTicker s) (stockPrice s).

Definition setLoading (b : bool) (s : State) : State :=
  mkState (articles s) b (error s) (selectedTicker s) (stockPrice s).

Definition setError (e : option string) (s : State) : State :=
  mkState (articles s) (loading s) e (selectedTicker s) (stockPrice s).

Definition setSelectedTicker (t : string) (s : State) : State :=
  mkState (articles s) (loading s) (error s) t (stockPrice s).

Definition setStockPrice (p : option value) (s : State) : State :=
  mkState (articles s) (loading s) (error s) (selectedTicker s) p.

(** [localStorage], a map from keys to strings. *)
Definition Storage : Type := gmap string string.

(** The effect run on mount: restore the last selected ticker if it is one of
    [TICKERS]. *)
Definition on_mount (storage : Storage) (s : State) : State :=
  match storage !! STORAGE_KEY with
  | Some lastTicker =>
      if truthy_str (Some lastTicker) && bool_decide (lastTicker ∈ TICKERS)
      then setSelectedTicker lastTicker s
      else s
  | None => s
  end.

(** [handleTickerChange], [ticker] being [e.target.value]. *)
Definition handleTickerChange (ticker : string) (s : State) (storage : Storage)
  : State * Storage :=
  (setSelectedTicker ticker s,
   if truthy_str (Some ticker) then <[STORAGE_KEY := ticker]> storage
   else delete STORAGE_KEY storage).

(** [data.k] for one of the keys the component reads ([symbol], [price],
    [news]): a [TypeError] on [null], [undefined] on any other value that is
    not an object. *)
Definition get (k : string) (data : value) : Error + option value :=
  match data with
  | JNull =>
      inl (mkError None ("Cannot read properties of null (reading '" ++ k ++ "')"))
  | JObj fields => inr (field k fields)
  | _ => inr None
  end.

(** [!!x] for a value or [undefined]. *)
Definition truthy_or_undefined (x : option value) : bool :=
  match x with
  | Some v => truthy v
  | None => false
  end.

(** [Array.isArray(x) ? x : []], as the items of the result. *)
Definition array_or_empty (x : option value) : list value :=
  match x with
  | Some (JArr items) => items
  | _ => []
  end.

(** The URL [fetchNews] requests. *)
Definition url_of (ticker : string) : string :=
  if truthy_str (Some ticker) then API_BASE_URL ++ "/" ++ ticker else API_BASE_URL.

(** The start of a run: [setLoading(true)], [setError(null)],
    [setStockPrice(null)]. *)
Definition fetchNews_begin (s : State) : State :=
  setStockPrice (Some JNull) (setError None (setLoading true s)).

(** The [try] block of a run after [await fetch(url)] has settled with
    [result]: the state updates it makes, or the error it throws.  [ticker]
    is the [selectedTicker] the run was started with. *)
Definition fetchNews_try (ticker : string) (result : FetchResult)
  : Error + (State -> State) :=
  match result with
  | Rejected message => inl (mkError None message)
  | Resolved response =>
      if negb (ok response) then
        inl (mkError None ("Failed to fetch news: " ++ statusText response))
      else
        match json response with
        | inl message => inl (mkError None message)
        | inr data =>
            if truthy_str (Some ticker) then
              match get "symbol" data with
              | inl e => inl e
              | inr symbol =>
                  if truthy_or_undefined symbol then
                    match get "price" data, get "news" data with
                    | inr p, inr n =>
                        inr (fun s => setArticles (array_or_empty n) (setStockPrice p s))
                    | inl e, _ => inl e
                    | _, inl e => inl e
                    end
                  else inr (setArticles (array_or_empty (Some data)))
              end
            else inr (setArticles (array_or_empty (Some data)))
        end
  end.

(** The end of a run, from the state [s] the component has when the fetch
    settles: the updates of the [try] block or, if it throws, of the [catch]
    block, then [setLoading(false)]. *)
Definition fetchNews_end (ticker : string) (result : FetchResult) (s : State) : State :=
  setLoading false
    match fetchNews_try ticker result with
    | inr update => update s
    | inl err =>
        setStockPrice (Some JNull)
          (setArticles [] (setError (Some (err_message err)) s))
    end.

(** A run of [fetchNews] that nothing overlaps, started from the state [s];
    [net] is what [fetch] answers for a URL. *)
Definition fetchNews (net : string -> FetchResult) (s : State) : State :=
  fetchNews_end (selectedTicker s) (net (url_of (selectedTicker s))) (fetchNews_begin s).

(** The component once its effects have run after mounting: its state, and
    the tickers of the runs in flight.  The effects of the first render
    restore the stored ticker and start a run for no ticker; if a ticker has
    been restored, the next render starts a second run for it while the first
    is still in flight. *)
Definition mount (storage : Storage) : State * list string :=
  let s := fetchNews_begin (on_mount storage initial) in
  (s, if truthy_str (Some (selectedTicker s)) then [""; selectedTicker s] else [""]).

(** [!!error] *)
Definition has_error (s : State) : bool := truthy_str (error s).

(** The conditions under which the five blocks of the page are rendered. *)
Definition shows_loading (s : State) : bool := loading s.

Definition shows_error (s : State) : bool := has_error s.

Definition shows_price (s : State) : bool :=
  negb (loading s) && negb (has_error s) && truthy_str (Some (selectedTicker s))
  && match stockPrice s with
     | Some JNull => false
     | Some _ => true
     | None => false
     end.

Definition shows_no_articles (s : State) : bool :=
  negb (loading s) && negb (has_error s) && (length (articles s) =? 0)%nat.

Definition shows_articles (s : State) : bool :=
  negb (loading s) && negb (has_error s) && (0 <? length (articles s))%nat.

End Client.

(** ** The client in front of the server *)

(** What [JSON.parse(JSON.stringify(v))] makes of a value: [NaN] and the
    infinities become [null], [-0] becomes [0], everything else is kept. *)
Fixpoint wire (v : value) : value :=
  match v with
  | JNum x =>
      if PrimFloat.is_nan x || PrimFloat.is_infinity x then JNull
      else if PrimFloat.eqb x 0%float then JNum 0%float
      else JNum x
  | JArr items => JArr (map wire items)
  | JObj fields => JObj (map (fun kv => (fst kv, wire (snd kv))) fields)
  | _ => v
  end.

(** The route Express dispatches the client's URL to. *)
Definition request_of (ticker : string) : Request :=
  if truthy_str (Some ticker) then GetSymbolNews ticker else GetNews.

(** The response the browser receives for a reply of the server, [reason]
    being the status text that goes with its status code. *)
Definition received (reason : Z -> string) (reply : Reply) : FetchResult :=
  Resolved (mkResponse (code reply) (reason (code reply)) (inr (wire (body reply)))).

(** A run started with [ticker] gets its answer from the server and ends in
    the state [s] of the component: the state of the component and the world
    of the server afterwards. *)
Definition fetch_from_server (E : Env) (reason : Z -> string) (w : World)
    (ticker : string) (s : Client.State) : Client.State * World :=
  let (reply, w') := serve E (request_of ticker) w in
  (Client.fetchNews_end ticker (received reason reply) s, w').

(** The same for a run that nothing overlaps, started from the state [s]:
    the state of the component and the world of the server afterwards. *)
Definition browse (E : Env) (reason : Z -> string) (w : World) (s : Client.State)
  : Client.State * World :=
  let (reply, w') := serve E (request_of (Client.selectedTicker s)) w in
  (Client.fetchNews (fun _ => received reason reply) s, w').

(** *** The selected ticker and [localStorage] *)

(** X13.  The selection survives a reload exactly when it is one of
    [TICKERS]: after [handleTickerChange] with the value [t], the component
    has [t] selected, and a component mounted afresh on the storage it left
    restores [t] if [t] is in the list and starts with no ticker otherwise;
    choosing the empty value ("General News") removes the key.  No other key
    of the storage is touched. *)
Theorem ticker_round_trip (t : string) (s : Client.State) (storage : Client.Storage) :
  Client.selectedTicker (fst (Client.handleTickerChange t s storage)) = t /\
  Client.selectedTicker
    (Client.on_mount (snd (Client.handleTickerChange t s storage)) Client.initial)
  = (if bool_decide (t ∈ Client.TICKERS) then t else "") /\
  (t = "" ->
   snd (Client.handleTickerChange t s storage) !! Client.STORAGE_KEY = None) /\
  (forall k, k <> Client.STORAGE_KEY ->
             snd (Client.handleTickerChange t s storage) !! k = storage !! k).
Proof.
  unfold Client.handleTickerChange, Client.on_mount, truthy_str.
  unfold Client.Storage in *.
  cbn beta iota delta [fst snd].
  split; [reflexivity|].
  destruct (String.eqb_spec t "") as [->|Hne]; cbn beta iota delta [negb].
  - rewrite lookup_delete_eq.
    split; [reflexivity|]. split; [reflexivity|].
    intros k Hk. by apply lookup_delete_ne.
  - rewrite lookup_insert_eq.
    destruct (String.eqb_spec t "") as [|_]; [done|].
    cbn beta iota delta [negb andb].
    split; [by destruct (bool_decide (t ∈ Client.TICKERS))|].
    split; [done|].
    intros k Hk. by apply lookup_insert_ne.
Qed.

(** X14.  Whatever [localStorage] holds, mounting changes nothing but the
    selected ticker, and it selects a ticker only if it is one of [TICKERS]:
    a stored value outside the list is ignored. *)
Theorem mount_respects_allow_list (storage : Client.Storage) (s : Client.State) :
  Client.on_mount storage s = s \/
  exists t, t ∈ Client.TICKERS /\
            storage !! Client.STORAGE_KEY = Some t /\
            Client.on_mount storage s = Client.setSelectedTicker t s.
Proof.
  unfold Client.on_mount.
  destruct (storage !! Client.STORAGE_KEY) as [t|]; [|by left].
  destruct (truthy_str (Some t)); simpl; [|by left].
  destruct (bool_decide_reflect (t ∈ Client.TICKERS)) as [Hin|_]; [|by left].
  right. by exists t.
Qed.

(** *** [fetchNews] *)




(** X16.  A fetch that fails sets the error message and clears the rest: a
    rejected fetch gives the message of the rejection; a response whose status
    is outside 200..299 gives "Failed to fetch news: " followed by its status
    text, whatever its body holds; a body that is not JSON gives the parse
    error.  In each case there are no articles, no price, and loading is
    over. *)
Theorem fetchNews_failure (net : string -> FetchResult) (s : Client.State)
    (message : string) :
  (net (Client.url_of (Client.selectedTicker s)) = Rejected message \/
   exists r, net (Client.url_of (Client.selectedTicker s)) = Resolved r /\
             ((ok r = false /\ message = "Failed to fetch news: " ++ statusText r) \/
              (ok r = true /\ json r = inl message))) ->
  Client.fetchNews net s
  = Client.mkState [] false (Some message) (Client.selectedTicker s) (Some JNull).
Proof.
  unfold Client.fetchNews, Client.fetchNews_end, Client.fetchNews_try. simpl.
  intros [->|(r & -> & [[-> ->]|[-> ->]])]; reflexivity.
Qed.

(** An instance: a 503 whose body is a well-formed error object. *)
Lemma fetchNews_failure_witness :
  let net := fun _ : string =>
    Resolved (mkResponse 503 "Service Unavailable"
                (inr (JObj [("error", JStr "Failed to fetch news/price")]))) in
  let s := Client.setSelectedTicker "AAPL" Client.initial in
  Client.fetchNews net s
  = Client.mkState [] false (Some "Failed to fetch news: Service Unavailable")
      "AAPL" (Some JNull).
Proof.
  intros net s. apply (fetchNews_failure net s). right.
  eexists. split; [reflexivity|]. left. split; reflexivity.
Defined.

(** X17.  Of the JSON payloads of a successful response only [null] in a run
    started with a ticker makes the run throw (reading [data.symbol] throws):
    then the error is set, with no articles and a [null] price.  Every other
    payload is accepted, whichever mode it was meant for, and leaves the error
    as the run finds it when it ends; so, if no error is set by then, one is
    set afterwards exactly in the case of [null] with a ticker.  A run
    started with no ticker shows the payload if it is an array and no
    articles otherwise, and leaves the price alone. *)
Theorem only_null_payload_fails (ticker : string) (r : Response) (data : value)
    (s : Client.State) :
  ok r = true ->
  json r = inr data ->
  let s' := Client.fetchNews_end ticker (Resolved r) s in
  (ticker <> "" /\ data = JNull ->
   exists message,
     s' = Client.mkState [] false (Some message) (Client.selectedTicker s) (Some JNull)) /\
  (ticker = "" \/ data <> JNull -> Client.error s' = Client.error s) /\
  (Client.error s = None ->
   (Client.error s' <> None <-> ticker <> "" /\ data = JNull)) /\
  (ticker = "" ->
   s' = Client.mkState (Client.array_or_empty (Some data)) false (Client.error s)
          (Client.selectedTicker s) (Client.stockPrice s)).
Proof.
  intros Hok Hjson. cbv zeta.
  unfold Client.fetchNews_end, Client.fetchNews_try. rewrite Hok, Hjson. simpl.
  destruct (String.eqb_spec ticker "") as [->|Hne]; simpl.
  - split_and!; try done.
    + by intros [? _].
    + intros Herr. rewrite Herr. split; [done|]. by intros [? _].
  - destruct data as [| | | | |fields]; simpl.
    2-5: split_and!; [by intros [_ ?]|done| |done];
         intros Herr; rewrite Herr; (split; [done|]); by intros [_ ?].
    + split_and!; [by eexists|by intros [?|?]| |done].
      intros _. split; [done|discriminate].
    + destruct (Client.truthy_or_undefined (field "symbol" fields)); simpl.
      all: split_and!; [by intros [_ ?]|done| |done].
      all: intros Herr; rewrite Herr; (split; [done|]); by intros [_ ?].
Qed.

(** An instance: a run started with no ticker receives a symbol payload
    while MSFT is selected and its price is shown. *)
Lemma only_null_payload_fails_witness :
  let data := JObj [("symbol", JStr "AAPL"); ("price", JNum 189.25%float);
                    ("news", Scenario.articles); ("source", JStr "api")] in
  let r := mkResponse 200 "OK" (inr data) in
  let s := Client.mkState [] true None "MSFT" (Some (JNum 410.5%float)) in
  let s' := Client.fetchNews_end "" (Resolved r) s in
  (Client.error s' <> None <-> "" <> "" /\ data = JNull) /\
  s' = Client.mkState [] false None "MSFT" (Some (JNum 410.5%float)).
Proof.
  intros data r s s'.
  destruct (only_null_payload_fails "" r data s eq_refl eq_refl)
    as (_ & _ & Hiff & Hstate).
  split; [by apply Hiff|by apply Hstate].
Defined.

(** *** A reply of the server, as the component receives it *)

(** The values of the options of the ticker [select]: the empty value of
    "General News" and the [TICKERS].  [request_of] is the route of the URL
    for these values. *)
Definition selectable (ticker : string) : Prop :=
  ticker = "" \/ ticker ∈ Client.TICKERS.

(** Status texts, for the instances below. *)
Definition reason_phrase (s : Z) : string :=
  if s =? 200 then "OK"
  else if s =? 429 then "Too Many Requests"
  else if s =? 500 then "Internal Server Error"
  else if s =? 503 then "Service Unavailable"
  else "".

(** The status of an error reply is never one [response.ok] accepts. *)
Lemma outcome_error_not_ok (res : FetchResult) (e : Error) (category : string) :
  outcome res = inl e -> ~ 200 <= code (on_error category e) < 300.
Proof.
  rewrite on_error_code.
  destruct res as [message|r]; simpl.
  - intros [= <-]. simpl. lia.
  - unfold check_response, response_json. destruct (ok r) eqn:Hok; simpl.
    + destruct (json r); intros [= <-]. simpl. lia.
    + assert (~ 200 <= status r < 300) as Hrange.
      { rewrite <- ok_range, Hok. discriminate. }
      destruct (status r =? 429); intros [= <-]; simpl; [lia|].
      destruct (status r =? 0); lia.
Qed.

Lemma current_price_error_not_ok (priceData : value) (e : Error) (category : string) :
  current_price priceData = inl e -> ~ 200 <= code (on_error category e) < 300.
Proof.
  rewrite on_error_code.
  destruct priceData as [| | | | |fields]; simpl; try discriminate.
  - intros [= <-]. simpl. lia.
  - destruct (field "c" fields); discriminate.
Qed.

Lemma serve_not_ok (E : Env) (q : Request) (w : World) :
  code (fst (serve E q w)) <> 200 -> ~ 200 <= code (fst (serve E q w)) < 300.
Proof.
  destruct (serve E q w) as [reply w'] eqn:Hrun. simpl.
  destruct q as [|param]; simpl in Hrun.
  - destruct (get_api_news_run E w) as (valid & r0 & _ & _ & Hsum).
    rewrite Hsum in Hrun. clear Hsum. destruct valid.
    { injection Hrun as <- <-. done. }
    destruct (negb (truthy_str (FINNHUB_API_KEY E))) eqn:Hkey.
    { injection Hrun as <- <-. simpl. lia. }
    cbv zeta in Hrun. destruct (outcome _) as [e|n] eqn:Hout;
      injection Hrun as <- <-; [|done].
    intros _. by eapply outcome_error_not_ok.
  - symbol_paths E Hrun; try done; try (simpl; lia); intros _.
    all: first [ eapply outcome_error_not_ok; eassumption
               | eapply current_price_error_not_ok; eassumption ].
Qed.

Lemma received_failure_end (reason : Z -> string) (reply : Reply) (ticker : string)
    (s : Client.State) :
  ~ 200 <= code reply < 300 ->
  Client.fetchNews_end ticker (received reason reply) s
  = Client.mkState [] false (Some ("Failed to fetch news: " ++ reason (code reply)))
      (Client.selectedTicker s) (Some JNull).
Proof.
  intros Hrange. unfold Client.fetchNews_end, Client.fetchNews_try, received.
  destruct (ok _) eqn:Hok; [|reflexivity].
  apply ok_range in Hok. simpl in Hok. contradiction.
Qed.

Lemma received_failure (reason : Z -> string) (reply : Reply) (s : Client.State) :
  ~ 200 <= code reply < 300 ->
  Client.fetchNews (fun _ => received reason reply) s
  = Client.mkState [] false (Some ("Failed to fetch news: " ++ reason (code reply)))
      (Client.selectedTicker s) (Some JNull).
Proof.
  intros Hrange. unfold Client.fetchNews.
  by rewrite (received_failure_end reason reply _ _ Hrange).
Qed.

Lemma array_or_empty_wire (v : value) :
  Client.array_or_empty (Some (wire v))
  = match v with JArr items => map wire items | _ => [] end.
Proof.
  destruct v as [| |x| | |]; simpl; try reflexivity.
  destruct (PrimFloat.is_nan x || PrimFloat.is_infinity x); [reflexivity|].
  by destruct (PrimFloat.eqb x 0).
Qed.




(** X19.  A run started with no ticker is answered 200 by the server.
    Whatever state the component is in when the run ends, its articles become
    the items of the reply if the reply is an array, none otherwise, loading
    goes off, and the error, the selection and the price stay as they are
    (so the general news can arrive under the ticker and the price of a run
    that ended before).  If nothing overlaps the run, it ends without error
    and without price, and the price header is not rendered. *)
Theorem browse_general (E : Env) (reason : Z -> string) (w : World) (s : Client.State) :
  code (fst (serve E GetNews w)) = 200 ->
  fst (fetch_from_server E reason w "" s)
  = Client.mkState
      match body (fst (serve E GetNews w)) with
      | JArr items => map wire items
      | _ => []
      end false (Client.error s) (Client.selectedTicker s) (Client.stockPrice s) /\
  snd (fetch_from_server E reason w "" s) = snd (serve E GetNews w) /\
  (Client.selectedTicker s = "" ->
   fst (browse E reason w s)
   = Client.mkState
       match body (fst (serve E GetNews w)) with
       | JArr items => map wire items
       | _ => []
       end false None "" (Some JNull) /\
   Client.shows_price (fst (browse E reason w s)) = false /\
   snd (browse E reason w s) = snd (serve E GetNews w)).
Proof.
  intros Hcode. unfold browse, fetch_from_server, Client.fetchNews, request_of.
  simpl in Hcode |- *. destruct (get_api_news E w) as [reply w'] eqn:Hrun.
  simpl in Hcode |- *.
  assert (forall s0,
            Client.fetchNews_end "" (received reason reply) s0
            = Client.mkState
                match body reply with JArr items => map wire items | _ => [] end
                false (Client.error s0) (Client.selectedTicker s0)
                (Client.stockPrice s0)) as Hend.
  { intros s0. rewrite <- array_or_empty_wire.
    unfold Client.fetchNews_end, Client.fetchNews_try, received. simpl.
    rewrite Hcode. reflexivity. }
  split; [apply Hend|]. split; [reflexivity|].
  intros Hsel. rewrite Hsel. simpl. rewrite Hrun. simpl. rewrite Hend. simpl.
  rewrite Hsel. by repeat split.
Qed.

(** An instance: the general news of a fresh server arrive while MSFT is
    selected and its price is shown. *)
Lemma browse_general_witness :
  let E := Scenario.env_priced in
  let s := Client.mkState [] false None "MSFT" (Some (JNum 410.5%float)) in
  fst (fetch_from_server E reason_phrase initial_world "" s)
  = Client.mkState
      match body (fst (serve E GetNews initial_world)) with
      | JArr items => map wire items
      | _ => []
      end false None "MSFT" (Some (JNum 410.5%float)) /\
  snd (fetch_from_server E reason_phrase initial_world "" s)
  = snd (serve E GetNews initial_world).
Proof.
  intros E s.
  destruct (browse_general E reason_phrase initial_world s) as (Hstate & Hworld & _).
  - vm_compute. reflexivity.
  - split; [exact Hstate|exact Hworld].
Defined.

(** The component is mounted with MSFT stored.  Two runs are in flight, one
    for no ticker and one for MSFT.  The run for MSFT fails first (the quote
    endpoint is down), then the general news arrive: the component ends with
    the error of the first together with the articles of the second, and
    renders the error block alone. *)
Example mount_with_stored_ticker :
  let E := Scenario.env_quote_down in
  let storage : Client.Storage := {[ Client.STORAGE_KEY := "MSFT" ]} in
  let msft := fetch_from_server E reason_phrase initial_world "MSFT"
                (fst (Client.mount storage)) in
  let general := fetch_from_server E reason_phrase (snd msft) "" (fst msft) in
  snd (Client.mount storage) = [""; "MSFT"] /\
  Client.error (fst general) = Some "Failed to fetch news: Service Unavailable" /\
  Client.articles (fst general) <> [] /\
  Client.loading (fst general) = false /\
  Client.shows_error (fst general) = true /\
  Client.shows_articles (fst general) = false.
Proof. vm_compute. repeat split; discriminate. Qed.

(** X20.  The server answers anything but 200, on either route: the component
    shows the error "Failed to fetch news: " followed by the status text of
    the reply, and neither the [error] nor the [message] of the reply's body;
    it has no articles and no price, and renders the error block alone. *)
Theorem browse_failure (E : Env) (reason : Z -> string) (w : World) (s : Client.State) :
  selectable (Client.selectedTicker s) ->
  code (fst (serve E (request_of (Client.selectedTicker s)) w)) <> 200 ->
  fst (browse E reason w s)
  = Client.mkState [] false
      (Some ("Failed to fetch news: "
             ++ reason (code (fst (serve E (request_of (Client.selectedTicker s)) w)))))
      (Client.selectedTicker s) (Some JNull) /\
  Client.shows_error (fst (browse E reason w s)) = true /\
  Client.shows_price (fst (browse E reason w s)) = false /\
  Client.shows_no_articles (fst (browse E reason w s)) = false /\
  Client.shows_articles (fst (browse E reason w s)) = false.
Proof.
  intros _ Hcode. apply serve_not_ok in Hcode. unfold browse.
  destruct (serve E _ w) as [reply w'] eqn:Hrun. simpl in Hcode |- *.
  rewrite (received_failure reason reply s Hcode).
  by repeat split.
Qed.

(** An instance: MSFT while the quote endpoint answers 503. *)
Lemma browse_failure_witness :
  let s := Client.setSelectedTicker "MSFT" Client.initial in
  fst (browse Scenario.env_quote_down reason_phrase initial_world s)
  = Client.mkState [] false
      (Some ("Failed to fetch news: "
             ++ reason_phrase
                  (code (fst (serve Scenario.env_quote_down
                                (request_of (Client.selectedTicker s)) initial_world)))))
      (Client.selectedTicker s) (Some JNull) /\
  Client.shows_error (fst (browse Scenario.env_quote_down reason_phrase initial_world s))
  = true /\
  Client.shows_price (fst (browse Scenario.env_quote_down reason_phrase initial_world s))
  = false /\
  Client.shows_no_articles
    (fst (browse Scenario.env_quote_down reason_phrase initial_world s)) = false /\
  Client.shows_articles
    (fst (browse Scenario.env_quote_down reason_phrase initial_world s)) = false.
Proof.
  intros s.
  apply (browse_failure Scenario.env_quote_down reason_phrase initial_world s).
  - right. unfold Client.TICKERS. apply elem_of_cons. right. apply elem_of_cons. by left.
  - vm_compute. discriminate.
Defined.
